(** * GMS-5 VISSR navigation: a shallow embedding of
      [satpy/readers/gms5_vissr_navigation.py]

    The navigation code is numerical Python: every quantity is a numpy
    [float64] scalar or a small array of them.  The embedding keeps the
    special values the code relies on (not-a-number as the "no result"
    sentinel, the two infinities) and idealises the finite values as exact
    real numbers: rounding, overflow and the sign of zero are outside the
    model.  A range whose end float64 reaches only by rounding or through
    a negative zero is stated closed at that end.

    The functions carry numba's [@njit] decorator.  The embedding follows
    the Python source and agrees with the compiled code as long as every
    index lies within the bounds of its array and no scalar is divided by
    zero.  Beyond that the two part.  The compiled code does not check
    bounds: a read past the end of an array returns what lies behind the
    array in memory and raises nothing.  It raises [ZeroDivisionError]
    when a scalar is divided by zero.  Here [getitem] raises [IndexError]
    and [fdiv] returns an infinity or not-a-number, as numpy values do in
    the interpreter.  The properties are therefore stated for reads within
    bounds and for divisors other than zero: none states the value of a
    read past the end or of a scalar division by zero.

    Exceptions are explicit: the interpolators, which raise and catch, are
    written in a small error monad; the other functions are pure. *)

From Stdlib Require Import Reals Lra Lia List String ZArith Bool Sorted.
Import ListNotations.

Local Open Scope R_scope.

(** ** Numbers *)

(** A [float64] is not-a-number, an infinity ([Inf true] is the negative
    one) or a finite value. *)
Inductive float64 : Type :=
| NaN
| Inf (neg : bool)
| Fin (r : R).

Definition is_neg (r : R) : bool := if Rlt_dec r 0 then true else false.

Definition fneg (a : float64) : float64 :=
  match a with
  | NaN => NaN
  | Inf s => Inf (negb s)
  | Fin x => Fin (- x)
  end.

Definition fadd (a b : float64) : float64 :=
  match a, b with
  | NaN, _ | _, NaN => NaN
  | Inf s, Inf t => if Bool.eqb s t then Inf s else NaN
  | Inf s, Fin _ => Inf s
  | Fin _, Inf t => Inf t
  | Fin x, Fin y => Fin (x + y)
  end.

Definition fsub (a b : float64) : float64 := fadd a (fneg b).

Definition fmul (a b : float64) : float64 :=
  match a, b with
  | NaN, _ | _, NaN => NaN
  | Inf s, Inf t => Inf (xorb s t)
  | Inf s, Fin y => if Req_dec_T y 0 then NaN else Inf (xorb s (is_neg y))
  | Fin x, Inf t => if Req_dec_T x 0 then NaN else Inf (xorb (is_neg x) t)
  | Fin x, Fin y => Fin (x * y)
  end.

(** numpy's true division: a zero divisor gives an infinity, or
    not-a-number for [0 / 0].  The compiled code divides arrays this way
    ([normalize_vector]); its division of scalars raises
    [ZeroDivisionError] on a zero divisor instead, and the properties of
    [_get_relative_observation_time] and
    [_get_distances_to_intersections] are stated where the divisor is not
    zero. *)
Definition fdiv (a b : float64) : float64 :=
  match a, b with
  | NaN, _ | _, NaN => NaN
  | Inf _, Inf _ => NaN
  | Inf s, Fin y => Inf (xorb s (is_neg y))
  | Fin _, Inf _ => Fin 0
  | Fin x, Fin y =>
      if Req_dec_T y 0
      then (if Req_dec_T x 0 then NaN else Inf (is_neg x))
      else Fin (x / y)
  end.

(** [v ** 2] *)
Definition fpow2 (a : float64) : float64 := fmul a a.

(** [np.sqrt]: not-a-number below zero. *)
Definition fsqrt (a : float64) : float64 :=
  match a with
  | NaN => NaN
  | Inf s => if s then NaN else Inf false
  | Fin x => if Rlt_dec x 0 then NaN else Fin (sqrt x)
  end.

(** Comparisons: anything compared with not-a-number is false. *)
Definition fltb (a b : float64) : bool :=
  match a, b with
  | NaN, _ | _, NaN => false
  | Inf s, Inf t => s && negb t
  | Inf s, Fin _ => s
  | Fin _, Inf t => negb t
  | Fin x, Fin y => if Rlt_dec x y then true else false
  end.

Definition fleb (a b : float64) : bool :=
  match a, b with
  | NaN, _ | _, NaN => false
  | Inf s, Inf t => s || negb t
  | Inf s, Fin _ => s
  | Fin _, Inf t => negb t
  | Fin x, Fin y => if Rle_dec x y then true else false
  end.

(** Python's builtin [min(a, b)]: the second argument wins only when it
    compares strictly less than the first. *)
Definition fmin (a b : float64) : float64 := if fltb b a then b else a.

(** [np.floor] *)
Definition ffloor (a : float64) : float64 :=
  match a with
  | Fin x => Fin (IZR (Zfloor x))
  | other => other
  end.

(** The remainder of the floored division of two reals, the value of
    [a % b] for finite [a] and non-zero finite [b]; it has the sign of
    [b].  On reals it stays below a positive [b]; the float64 remainder
    may round up to [b] itself, so the ranges that rest on it are stated
    with the end [b] included. *)
Definition Rmod (a b : R) : R := a - IZR (Zfloor (a / b)) * b.

(** [a % b] on [float64]. *)
Definition fmod (a b : float64) : float64 :=
  match a, b with
  | NaN, _ | _, NaN => NaN
  | Inf _, _ => NaN
  | Fin x, Inf t =>
      if Req_dec_T x 0 then Fin 0
      else if Bool.eqb (is_neg x) t then Fin x else Inf t
  | Fin x, Fin y => if Req_dec_T y 0 then NaN else Fin (Rmod x y)
  end.

Definition fcos (a : float64) : float64 :=
  match a with Fin x => Fin (cos x) | _ => NaN end.

Definition fsin (a : float64) : float64 :=
  match a with Fin x => Fin (sin x) | _ => NaN end.

(** The two-argument arctangent of reals: the angle of the point
    [(x, y)], in (-PI, PI].  [np.arctan2] returns [-pi] as well, for a
    point left of the y-axis whose [y] is the negative zero or a negative
    number so small that the angle rounds to [-pi]; the ranges that rest
    on it are stated with the end [-pi] included. *)
Definition Ratan2 (y x : R) : R :=
  if Rlt_dec 0 x then atan (y / x)
  else if Rlt_dec x 0 then
    (if Rle_dec 0 y then atan (y / x) + PI else atan (y / x) - PI)
  else if Rlt_dec 0 y then PI / 2
  else if Rlt_dec y 0 then - (PI / 2)
  else 0.

(** [np.arctan2(y, x)] *)
Definition farctan2 (y x : float64) : float64 :=
  match y, x with
  | NaN, _ | _, NaN => NaN
  | Inf s, Inf t =>
      let q := if t then 3 * (PI / 4) else PI / 4 in
      Fin (if s then - q else q)
  | Inf s, Fin _ => Fin (if s then - (PI / 2) else PI / 2)
  | Fin b, Inf t =>
      if t then Fin (if Rlt_dec b 0 then - PI else PI) else Fin 0
  | Fin b, Fin a => Fin (Ratan2 b a)
  end.

(** [np.pi] *)
Definition fpi : float64 := Fin PI.

(** [np.rad2deg] *)
Definition frad2deg (a : float64) : float64 := fmul a (Fin (180 / PI)).

(** An integer used where a float is expected. *)
Definition of_Z (z : Z) : float64 := Fin (IZR z).

Declare Scope float_scope.
Delimit Scope float_scope with fl.
Bind Scope float_scope with float64.
Notation "a + b" := (fadd a b) : float_scope.
Notation "a - b" := (fsub a b) : float_scope.
Notation "a * b" := (fmul a b) : float_scope.
Notation "a / b" := (fdiv a b) : float_scope.
Notation "- a" := (fneg a) : float_scope.
Notation "a <? b" := (fltb a b) : float_scope.
Notation "a <=? b" := (fleb a b) : float_scope.

(** ** Small arrays *)

(** A length-3 array and a 3x3 array (a triple of rows). *)
Definition vec3 : Type := float64 * float64 * float64.
Definition mat3 : Type := vec3 * vec3 * vec3.

(** [np.dot(v, w)] for two vectors. *)
Definition dot (v w : vec3) : float64 :=
  let '(v0, v1, v2) := v in
  let '(w0, w1, w2) := w in
  (v0 * w0 + v1 * w1 + v2 * w2)%fl.

(** [np.dot(m, v)] for a matrix and a vector. *)
Definition mat_dot (m : mat3) (v : vec3) : vec3 :=
  let '(r0, r1, r2) := m in (dot r0 v, dot r1 v, dot r2 v).

(** [np.cross(v, w)] *)
Definition cross (v w : vec3) : vec3 :=
  let '(v0, v1, v2) := v in
  let '(w0, w1, w2) := w in
  (v1 * w2 - v2 * w1, v2 * w0 - v0 * w2, v0 * w1 - v1 * w0)%fl.

(** Elementwise [v + w], [v * s], [s * v] and [v / s] of an array and a
    scalar. *)
Definition vec_add (v w : vec3) : vec3 :=
  let '(v0, v1, v2) := v in
  let '(w0, w1, w2) := w in
  (v0 + w0, v1 + w1, v2 + w2)%fl.

Definition vec_map (g : float64 -> float64) (v : vec3) : vec3 :=
  let '(v0, v1, v2) := v in (g v0, g v1, g v2).

Definition vec_scale (v : vec3) (s : float64) : vec3 :=
  vec_map (fun c => c * s)%fl v.

Definition scale_vec (s : float64) (v : vec3) : vec3 :=
  vec_map (fun c => s * c)%fl v.

Definition vec_div (v : vec3) (s : float64) : vec3 :=
  vec_map (fun c => c / s)%fl v.

(** [np.stack((a, b, c), axis=-1)]: the three vectors become the columns. *)
Definition stack_columns (a b c : vec3) : mat3 :=
  let '(a0, a1, a2) := a in
  let '(b0, b1, b2) := b in
  let '(c0, c1, c2) := c in
  ((a0, b0, c0), (a1, b1, c1), (a2, b2, c2)).

(** [np.ones_like(m)] and [np.nan * m] for a 3x3 array. *)
Definition mat_map (g : float64 -> float64) (m : mat3) : mat3 :=
  let '(r0, r1, r2) := m in (vec_map g r0, vec_map g r1, vec_map g r2).

Definition ones_like (m : mat3) : mat3 := mat_map (fun _ => Fin 1) m.

Definition scale_mat (s : float64) (m : mat3) : mat3 :=
  mat_map (fun c => s * c)%fl m.

(** ** Exceptions *)

Inductive exn : Type :=
| IndexError
| Exception (msg : string).

Inductive exc (A : Type) : Type :=
| Ok (a : A)
| Raise (e : exn).

Arguments Ok {A} a.
Arguments Raise {A} e.

Definition bind {A B : Type} (m : exc A) (k : A -> exc B) : exc B :=
  match m with
  | Ok a => k a
  | Raise e => Raise e
  end.

Notation "x <- m ;; k" := (bind m (fun x => k))
  (at level 61, m at next level, right associativity).

(** [try: body / except Exception: handler]: every exception of the model
    is an [Exception] in Python's hierarchy, so the handler catches all. *)
Definition try_except {A : Type} (body handler : exc A) : exc A :=
  match body with
  | Ok a => Ok a
  | Raise _ => handler
  end.

(** [a[i]] for an index that is never negative.  The check of the bounds
    is the interpreter's: the compiled code reads without it. *)
Definition getitem {A : Type} (a : list A) (i : nat) : exc A :=
  match nth_error a i with
  | Some v => Ok v
  | None => Raise IndexError
  end.

(** [range(n)] for an integer that may be negative. *)
Definition range (n : Z) : list nat := seq 0 (Z.to_nat n).

(** ** Data model *)

Record Attitude : Type := {
  angle_between_earth_and_sun : float64;
  angle_between_sat_spin_and_z_axis : float64;
  angle_between_sat_spin_and_yz_plane : float64
}.

Record OrbitAngles : Type := {
  greenwich_sidereal_time : float64;
  declination_from_sat_to_sun : float64;
  right_ascension_from_sat_to_sun : float64
}.

Record SatellitePositionEarthFixed : Type := {
  pos_x : float64;
  pos_y : float64;
  pos_z : float64
}.

Record Orbit : Type := {
  angles : OrbitAngles;
  sat_position : SatellitePositionEarthFixed;
  nutation_precession : mat3
}.

Record ScanningParameters : Type := {
  start_time_of_scan : float64;
  spinning_rate : float64;
  num_sensors : Z;
  sampling_angle : float64
}.

Record ProjectionParameters : Type := {
  line_offset : float64;
  pixel_offset : float64;
  stepping_angle : float64;
  proj_sampling_angle : float64;
  misalignment : mat3;
  earth_flattening : float64;
  earth_equatorial_radius : float64
}.

(** A point of the image: [(line, pixel)], two integers. *)
Definition image_point : Type := Z * Z.

(** ** Observation time *)

Definition _get_relative_observation_time
    (point : image_point) (scan_params : ScanningParameters) : float64 :=
  let '(line, pixel) := point in
  let pixel := (pixel + 1)%Z in
  let line := (line + 1)%Z in
  let spinning_freq := (Fin 1440 * spinning_rate scan_params)%fl in
  let line_step :=
    ffloor (of_Z (line - 1) / of_Z (num_sensors scan_params))%fl in
  let pixel_step :=
    ((sampling_angle scan_params * of_Z pixel) / (Fin 2 * fpi))%fl in
  ((line_step + pixel_step) / spinning_freq)%fl.

Definition get_observation_time
    (point : image_point) (scan_params : ScanningParameters) : float64 :=
  let relative_time := _get_relative_observation_time point scan_params in
  (start_time_of_scan scan_params + relative_time)%fl.

(** ** Interpolation *)

(** The loop of [_find_enclosing_index] over the indices still to visit. *)
Fixpoint _find_enclosing_index_loop
    (x : float64) (x_sample : list float64) (indices : list nat) : exc nat :=
  match indices with
  | [] => Raise (Exception "x not enclosed by x_sample")
  | i :: rest =>
      lo <- getitem x_sample i ;;
      if (lo <=? x)%fl then
        hi <- getitem x_sample (i + 1) ;;
        if (x <? hi)%fl then Ok i
        else _find_enclosing_index_loop x x_sample rest
      else _find_enclosing_index_loop x x_sample rest
  end.

Definition _find_enclosing_index (x : float64) (x_sample : list float64)
  : exc nat :=
  _find_enclosing_index_loop x x_sample
    (range (Z.of_nat (List.length x_sample) - 1)).

Definition _interpolate (x : float64) (x_sample y_sample : list float64)
  : exc float64 :=
  i <- _find_enclosing_index x x_sample ;;
  offset <- getitem y_sample i ;;
  x_hi <- getitem x_sample (i + 1) ;;
  x_lo <- getitem x_sample i ;;
  let x_diff := (x_hi - x_lo)%fl in
  y_hi <- getitem y_sample (i + 1) ;;
  y_lo <- getitem y_sample i ;;
  let y_diff := (y_hi - y_lo)%fl in
  let slope := (y_diff / x_diff)%fl in
  x_i <- getitem x_sample i ;;
  let dist := (x - x_i)%fl in
  Ok (offset + slope * dist)%fl.

Definition interpolate_continuous (x : float64)
    (x_sample y_sample : list float64) : exc float64 :=
  try_except (_interpolate x x_sample y_sample) (Ok NaN).

Definition _wrap_2pi (values : float64) : float64 :=
  (fmod (values + fpi) (Fin 2 * fpi) - fpi)%fl.

Definition interpolate_angles (x : float64)
    (x_sample y_sample : list float64) : exc float64 :=
  v <- interpolate_continuous x x_sample y_sample ;;
  Ok (_wrap_2pi v).

Definition _interpolate_nearest (x : float64) (x_sample : list float64)
    (y_sample : list mat3) : exc mat3 :=
  i <- _find_enclosing_index x x_sample ;;
  getitem y_sample i.

Definition interpolate_nearest (x : float64) (x_sample : list float64)
    (y_sample : list mat3) : exc mat3 :=
  try_except (_interpolate_nearest x x_sample y_sample)
    (first <- getitem y_sample 0 ;;
     Ok (scale_mat NaN (ones_like first))).

(** ** From image coordinates to a view vector *)

Definition _get_image_offset (proj_params : ProjectionParameters)
  : float64 * float64 :=
  (line_offset proj_params, pixel_offset proj_params).

Definition _get_sampling (proj_params : ProjectionParameters)
  : float64 * float64 :=
  (stepping_angle proj_params, proj_sampling_angle proj_params).

Definition _get_spin_angles (attitude : Attitude) : float64 * float64 :=
  (angle_between_sat_spin_and_z_axis attitude,
   angle_between_sat_spin_and_yz_plane attitude).

Definition _get_sat_pos (orbit : Orbit) : vec3 :=
  (pos_x (sat_position orbit),
   pos_y (sat_position orbit),
   pos_z (sat_position orbit)).

Definition _get_ellipsoid (proj_params : ProjectionParameters)
  : float64 * float64 :=
  (earth_equatorial_radius proj_params, earth_flattening proj_params).

Definition transform_image_coords_to_scanning_angles
    (point : image_point) (offset sampling : float64 * float64)
  : float64 * float64 :=
  let '(line, pixel) := point in
  let '(line_offset, pixel_offset) := offset in
  let '(stepping_angle, sampling_angle) := sampling in
  let x := (sampling_angle * (of_Z (pixel + 1) - pixel_offset))%fl in
  let y := (stepping_angle * (of_Z (line + 1) - line_offset))%fl in
  (x, y).

Definition _get_transforms_from_scanning_angles_to_satellite_coords
    (scan_angles : float64 * float64) : mat3 * vec3 :=
  let '(x, y) := scan_angles in
  let cos_x := fcos x in
  let sin_x := fsin x in
  let rot : mat3 :=
    ((cos_x, (- sin_x)%fl, Fin 0),
     (sin_x, cos_x, Fin 0),
     (Fin 0, Fin 0, Fin 1)) in
  let vec : vec3 := (fcos y, Fin 0, fsin y) in
  (rot, vec).

Definition transform_scanning_angles_to_satellite_coords
    (scan_angles : float64 * float64) (misalignment : mat3) : vec3 :=
  let '(rotation, vector) :=
    _get_transforms_from_scanning_angles_to_satellite_coords scan_angles in
  mat_dot rotation (mat_dot misalignment vector).

Definition normalize_vector (v : vec3) : vec3 :=
  vec_div v (fsqrt (dot v v)).

Definition _get_satellite_z_axis_1950 (spin_angles : float64 * float64)
  : vec3 :=
  let '(alpha, delta) := spin_angles in
  let cos_delta := fcos delta in
  let x := fsin delta in
  let y := (- cos_delta * fsin alpha)%fl in
  let z := (cos_delta * fcos alpha)%fl in
  (x, y, z).

Definition _get_transform_from_1950_to_earth_fixed
    (greenwich_sidereal_time : float64) : mat3 :=
  let c := fcos greenwich_sidereal_time in
  let s := fsin greenwich_sidereal_time in
  ((c, s, Fin 0), ((- s)%fl, c, Fin 0), (Fin 0, Fin 0, Fin 1)).

Definition _get_satellite_unit_vector_z (spin_angles : float64 * float64)
    (greenwich_sidereal_time : float64) (nutation_precession : mat3)
  : vec3 :=
  let sat_z_axis_1950 := _get_satellite_z_axis_1950 spin_angles in
  let rotation :=
    _get_transform_from_1950_to_earth_fixed greenwich_sidereal_time in
  let z_vec :=
    mat_dot rotation (mat_dot nutation_precession sat_z_axis_1950) in
  normalize_vector z_vec.

Definition _get_vector_from_satellite_to_sun (orbit_angles : OrbitAngles)
  : vec3 :=
  let declination := declination_from_sat_to_sun orbit_angles in
  let right_ascension := right_ascension_from_sat_to_sun orbit_angles in
  let cos_declination := fcos declination in
  let x := (cos_declination * fcos right_ascension)%fl in
  let y := (cos_declination * fsin right_ascension)%fl in
  let z := fsin declination in
  (x, y, z).

Definition _get_satellite_unit_vector_x (earth_sun_angle : float64)
    (orbit_angles : OrbitAngles) (sat_unit_vector_z : vec3) : vec3 :=
  let beta := earth_sun_angle in
  let sat_sun_vector := _get_vector_from_satellite_to_sun orbit_angles in
  let z_cross_satsun := cross sat_unit_vector_z sat_sun_vector in
  let z_cross_satsun := normalize_vector z_cross_satsun in
  let x_vec :=
    vec_add (vec_scale z_cross_satsun (fsin beta))
            (vec_scale (cross z_cross_satsun sat_unit_vector_z) (fcos beta)) in
  normalize_vector x_vec.

Definition _get_satellite_unit_vector_y
    (sat_unit_vector_x sat_unit_vector_z : vec3) : vec3 :=
  let y_vec := cross sat_unit_vector_z sat_unit_vector_x in
  normalize_vector y_vec.

Definition _get_satellite_unit_vectors (orbit : Orbit)
    (earth_sun_angle : float64) (spin_angles : float64 * float64) : mat3 :=
  let unit_vector_z :=
    _get_satellite_unit_vector_z spin_angles
      (greenwich_sidereal_time (angles orbit)) (nutation_precession orbit) in
  let unit_vector_x :=
    _get_satellite_unit_vector_x earth_sun_angle (angles orbit) unit_vector_z in
  let unit_vector_y :=
    _get_satellite_unit_vector_y unit_vector_x unit_vector_z in
  stack_columns unit_vector_x unit_vector_y unit_vector_z.

Definition transform_satellite_to_earth_fixed_coords (point : vec3)
    (orbit : Orbit) (earth_sun_angle : float64)
    (spin_angles : float64 * float64) : vec3 :=
  let sat_unit_vectors :=
    _get_satellite_unit_vectors orbit earth_sun_angle spin_angles in
  mat_dot sat_unit_vectors point.

(** ** Intersection with the earth and geodetic coordinates *)

Definition _get_distances_to_intersections (view_vector sat_pos : vec3)
    (ellipsoid : float64 * float64) : float64 * float64 :=
  let '(equatorial_radius, flattening) := ellipsoid in
  let flat2 := fpow2 (Fin 1 - flattening)%fl in
  let '(ux, uy, uz) := view_vector in
  let '(x, y, z) := sat_pos in
  let a := (flat2 * (fpow2 ux + fpow2 uy) + fpow2 uz)%fl in
  let b := (flat2 * (x * ux + y * uy) + z * uz)%fl in
  let c :=
    (flat2 * (fpow2 x + fpow2 y - fpow2 equatorial_radius) + fpow2 z)%fl in
  let tmp := fsqrt (fpow2 b - a * c)%fl in
  let dist_1 := ((- b + tmp) / a)%fl in
  let dist_2 := ((- b - tmp) / a)%fl in
  (dist_1, dist_2).

Definition _get_distance_to_intersection (view_vector sat_pos : vec3)
    (ellipsoid : float64 * float64) : float64 :=
  let '(d1, d2) :=
    _get_distances_to_intersections view_vector sat_pos ellipsoid in
  fmin d1 d2.

Definition intersect_with_earth (view_vector sat_pos : vec3)
    (ellipsoid : float64 * float64) : vec3 :=
  let distance :=
    _get_distance_to_intersection view_vector sat_pos ellipsoid in
  vec_add sat_pos (scale_vec distance view_vector).

Definition transform_earth_fixed_to_geodetic_coords (point : vec3)
    (earth_flattening : float64) : float64 * float64 :=
  let '(x, y, z) := point in
  let f := earth_flattening in
  let lon := farctan2 y x in
  let lat :=
    farctan2 z (fpow2 (Fin 1 - f) * fsqrt (fpow2 x + fpow2 y))%fl in
  (frad2deg lon, frad2deg lat).

(** The navigation parameters of one pixel: attitude, orbit and projection
    parameters. *)
Definition nav_params_t : Type := Attitude * Orbit * ProjectionParameters.

Definition get_lon_lat (point : image_point) (nav_params : nav_params_t)
  : float64 * float64 :=
  let '(attitude, orbit, proj_params) := nav_params in
  let scan_angles :=
    transform_image_coords_to_scanning_angles
      point (_get_image_offset proj_params) (_get_sampling proj_params) in
  let view_vector_sat :=
    transform_scanning_angles_to_satellite_coords
      scan_angles (misalignment proj_params) in
  let view_vector_earth_fixed :=
    transform_satellite_to_earth_fixed_coords
      view_vector_sat orbit
      (angle_between_earth_and_sun attitude) (_get_spin_angles attitude) in
  let point_on_earth :=
    intersect_with_earth
      view_vector_earth_fixed (_get_sat_pos orbit)
      (_get_ellipsoid proj_params) in
  let '(lon, lat) :=
    transform_earth_fixed_to_geodetic_coords
      point_on_earth (earth_flattening proj_params) in
  (lon, lat).

(** ** Vocabulary of the properties *)

(** Interval [i] of the sample times encloses the query [x]:
    [x_sample[i] <= x < x_sample[i + 1]]. *)
Definition encloses (x : float64) (x_sample : list float64) (i : nat)
  : Prop :=
  exists lo hi,
    nth_error x_sample i = Some lo /\
    nth_error x_sample (i + 1) = Some hi /\
    (lo <=? x)%fl = true /\ (x <? hi)%fl = true.

(** The exception [_find_enclosing_index] raises after its loop. *)
Definition not_enclosed : exn := Exception "x not enclosed by x_sample".

(** Sample times are finite and strictly increasing. *)
Definition strictly_increasing (xr : list R) : Prop := StronglySorted Rlt xr.

(** The coefficients of the quadratic [a t^2 + 2 b t + c = 0] whose roots
    are the distances from the satellite at [p] along the view vector [u]
    to the ellipsoid. *)
Section Quadratic.

Variables ux uy uz px py pz radius f : R.

Definition quad_k : R := (1 - f) ^ 2.
Definition quad_a : R := quad_k * (ux ^ 2 + uy ^ 2) + uz ^ 2.
Definition quad_b : R := quad_k * (px * ux + py * uy) + pz * uz.
Definition quad_c : R :=
  quad_k * (px ^ 2 + py ^ 2 - radius ^ 2) + pz ^ 2.
Definition quad_disc : R := quad_b ^ 2 - quad_a * quad_c.
Definition quad_root1 : R := (- quad_b + sqrt quad_disc) / quad_a.
Definition quad_root2 : R := (- quad_b - sqrt quad_disc) / quad_a.

End Quadratic.

(** Radians to degrees, on reals. *)
Definition Rrad2deg (r : R) : R := r * (180 / PI).

(** The earth-fixed view vector that [get_lon_lat] computes for a pixel
    before intersecting it with the earth. *)
Definition view_vector_of (point : image_point) (nav_params : nav_params_t)
  : vec3 :=
  let '(attitude, orbit, proj_params) := nav_params in
  transform_satellite_to_earth_fixed_coords
    (transform_scanning_angles_to_satellite_coords
       (transform_image_coords_to_scanning_angles
          point (_get_image_offset proj_params) (_get_sampling proj_params))
       (misalignment proj_params))
    orbit
    (angle_between_earth_and_sun attitude) (_get_spin_angles attitude).

(** The 3x3 identity. *)
Definition identity_matrix : mat3 :=
  ((Fin 1, Fin 0, Fin 0), (Fin 0, Fin 1, Fin 0), (Fin 0, Fin 0, Fin 1)).

(** A pixel whose view ray misses the earth: every angle is zero, so the
    ray leaves along the x-axis, from a satellite on the y-axis at twice
    the radius of a spherical earth. *)
Definition zero_attitude : Attitude :=
  {| angle_between_earth_and_sun := Fin 0;
     angle_between_sat_spin_and_z_axis := Fin 0;
     angle_between_sat_spin_and_yz_plane := Fin 0 |}.

Definition side_orbit : Orbit :=
  {| angles := {| greenwich_sidereal_time := Fin 0;
                  declination_from_sat_to_sun := Fin 0;
                  right_ascension_from_sat_to_sun := Fin 0 |};
     sat_position := {| pos_x := Fin 0; pos_y := Fin 2; pos_z := Fin 0 |};
     nutation_precession := identity_matrix |}.

Definition unit_projection : ProjectionParameters :=
  {| line_offset := Fin 1;
     pixel_offset := Fin 1;
     stepping_angle := Fin 0;
     proj_sampling_angle := Fin 0;
     misalignment := identity_matrix;
     earth_flattening := Fin 0;
     earth_equatorial_radius := Fin 1 |}.

(** ** Vectors and matrices of reals *)

(** Finite arrays are written as arrays of reals: [vFin] and [mFin] turn
    them into the arrays of [float64] the code works on. *)
Definition rvec : Type := R * R * R.
Definition rmat : Type := rvec * rvec * rvec.

Definition vFin (v : rvec) : vec3 :=
  let '(a, b, c) := v in (Fin a, Fin b, Fin c).

Definition mFin (m : rmat) : mat3 :=
  let '(r0, r1, r2) := m in (vFin r0, vFin r1, vFin r2).

Definition Rdot (v w : rvec) : R :=
  let '(v0, v1, v2) := v in
  let '(w0, w1, w2) := w in
  v0 * w0 + v1 * w1 + v2 * w2.

Definition Rcross (v w : rvec) : rvec :=
  let '(v0, v1, v2) := v in
  let '(w0, w1, w2) := w in
  (v1 * w2 - v2 * w1, v2 * w0 - v0 * w2, v0 * w1 - v1 * w0).

Definition Rscale (s : R) (v : rvec) : rvec :=
  let '(v0, v1, v2) := v in (s * v0, s * v1, s * v2).

Definition Rvadd (v w : rvec) : rvec :=
  let '(v0, v1, v2) := v in
  let '(w0, w1, w2) := w in
  (v0 + w0, v1 + w1, v2 + w2).

Definition Rmat_vec (m : rmat) (v : rvec) : rvec :=
  let '(r0, r1, r2) := m in (Rdot r0 v, Rdot r1 v, Rdot r2 v).

(** The euclidean length. *)
Definition Rnorm (v : rvec) : R := sqrt (Rdot v v).

(** The columns of a matrix. *)
Definition Rcolumns (m : rmat) : rvec * rvec * rvec :=
  let '((a0, b0, c0), (a1, b1, c1), (a2, b2, c2)) := m in
  ((a0, a1, a2), (b0, b1, b2), (c0, c1, c2)).

(** Three vectors of length one, orthogonal to each other. *)
Definition orthonormal (a b c : rvec) : Prop :=
  Rdot a a = 1 /\ Rdot b b = 1 /\ Rdot c c = 1 /\
  Rdot a b = 0 /\ Rdot a c = 0 /\ Rdot b c = 0.

(** A matrix whose columns are orthonormal. *)
Definition orthonormal_columns (m : rmat) : Prop :=
  let '(a, b, c) := Rcolumns m in orthonormal a b c.

(** The matrix with the three given columns. *)
Definition Rstack_columns (a b c : rvec) : rmat :=
  let '(a0, a1, a2) := a in
  let '(b0, b1, b2) := b in
  let '(c0, c1, c2) := c in
  ((a0, b0, c0), (a1, b1, c1), (a2, b2, c2)).

(** An orbit with finite angles and the given position and matrix. *)
Definition orbit_of (gst dec ra : R) (pos : SatellitePositionEarthFixed)
    (nutation : mat3) : Orbit :=
  {| angles := {| greenwich_sidereal_time := Fin gst;
                  declination_from_sat_to_sun := Fin dec;
                  right_ascension_from_sat_to_sun := Fin ra |};
     sat_position := pos;
     nutation_precession := nutation |}.

(** An orbit whose nutation and precession matrix turns the z-axis into
    the x-axis, with the sun on the x-axis (declination and right
    ascension zero): for spin angles of zero the spin axis points at the
    sun. *)
Definition sunward_spin_orbit : Orbit :=
  orbit_of 0 0 0 {| pos_x := Fin 0; pos_y := Fin 2; pos_z := Fin 0 |}
    (mFin ((0, 0, 1), (0, 1, 0), (1, 0, 0))).

(** The direction from the satellite to the sun, on reals. *)
Definition Rsun_vector (dec ra : R) : rvec :=
  (cos dec * cos ra, cos dec * sin ra, sin dec).

(** The satellite's x-axis and y-axis on reals, from the unit vector [z]
    of the spin axis, the direction [s] to the sun and the angle [beta]
    between earth and sun. *)
Definition Runit_vector_x (beta : R) (s z : rvec) : rvec :=
  let n := Rscale (/ Rnorm (Rcross z s)) (Rcross z s) in
  Rvadd (Rscale (sin beta) n) (Rscale (cos beta) (Rcross n z)).

Definition Runit_vector_y (x z : rvec) : rvec := Rcross z x.

(** ** Predictions of attitude and orbit *)

(** The prediction tables handed to the compiled functions.  In the source
    [OrbitAngles] and [SatellitePositionEarthFixed] hold arrays here, one
    value per prediction time; the records with arrays have names of their
    own. *)
Record _AttitudePrediction : Type := {
  attitude_prediction_times : list float64;
  predicted_angle_between_earth_and_sun : list float64;
  predicted_angle_between_sat_spin_and_z_axis : list float64;
  predicted_angle_between_sat_spin_and_yz_plane : list float64
}.

Record OrbitAnglesPrediction : Type := {
  predicted_greenwich_sidereal_time : list float64;
  predicted_declination_from_sat_to_sun : list float64;
  predicted_right_ascension_from_sat_to_sun : list float64
}.

Record SatellitePositionPrediction : Type := {
  predicted_x : list float64;
  predicted_y : list float64;
  predicted_z : list float64
}.

Record _OrbitPrediction : Type := {
  orbit_prediction_times : list float64;
  predicted_angles : OrbitAnglesPrediction;
  predicted_sat_position : SatellitePositionPrediction;
  predicted_nutation_precession : list mat3
}.

Definition interpolate_attitude_prediction
    (attitude_prediction : _AttitudePrediction) (observation_time : float64)
  : exc Attitude :=
  earth_sun <-
    interpolate_angles observation_time
      (attitude_prediction_times attitude_prediction)
      (predicted_angle_between_earth_and_sun attitude_prediction) ;;
  spin_z <-
    interpolate_angles observation_time
      (attitude_prediction_times attitude_prediction)
      (predicted_angle_between_sat_spin_and_z_axis attitude_prediction) ;;
  spin_yz <-
    interpolate_angles observation_time
      (attitude_prediction_times attitude_prediction)
      (predicted_angle_between_sat_spin_and_yz_plane attitude_prediction) ;;
  Ok {| angle_between_earth_and_sun := earth_sun;
        angle_between_sat_spin_and_z_axis := spin_z;
        angle_between_sat_spin_and_yz_plane := spin_yz |}.

Definition _interpolate_orbit_angles (observation_time : float64)
    (orbit_prediction : _OrbitPrediction) : exc OrbitAngles :=
  sidereal_time <-
    interpolate_angles observation_time
      (orbit_prediction_times orbit_prediction)
      (predicted_greenwich_sidereal_time
         (predicted_angles orbit_prediction)) ;;
  declination <-
    interpolate_angles observation_time
      (orbit_prediction_times orbit_prediction)
      (predicted_declination_from_sat_to_sun
         (predicted_angles orbit_prediction)) ;;
  right_ascension <-
    interpolate_angles observation_time
      (orbit_prediction_times orbit_prediction)
      (predicted_right_ascension_from_sat_to_sun
         (predicted_angles orbit_prediction)) ;;
  Ok {| greenwich_sidereal_time := sidereal_time;
        declination_from_sat_to_sun := declination;
        right_ascension_from_sat_to_sun := right_ascension |}.

Definition _interpolate_sat_position (observation_time : float64)
    (orbit_prediction : _OrbitPrediction)
  : exc SatellitePositionEarthFixed :=
  x <-
    interpolate_continuous observation_time
      (orbit_prediction_times orbit_prediction)
      (predicted_x (predicted_sat_position orbit_prediction)) ;;
  y <-
    interpolate_continuous observation_time
      (orbit_prediction_times orbit_prediction)
      (predicted_y (predicted_sat_position orbit_prediction)) ;;
  z <-
    interpolate_continuous observation_time
      (orbit_prediction_times orbit_prediction)
      (predicted_z (predicted_sat_position orbit_prediction)) ;;
  Ok {| pos_x := x; pos_y := y; pos_z := z |}.

Definition interpolate_orbit_prediction
    (orbit_prediction : _OrbitPrediction) (observation_time : float64)
  : exc Orbit :=
  orbit_angles <- _interpolate_orbit_angles observation_time orbit_prediction ;;
  position <- _interpolate_sat_position observation_time orbit_prediction ;;
  nutation <-
    interpolate_nearest observation_time
      (orbit_prediction_times orbit_prediction)
      (predicted_nutation_precession orbit_prediction) ;;
  Ok {| angles := orbit_angles;
        sat_position := position;
        nutation_precession := nutation |}.

Definition interpolate_navigation_prediction
    (attitude_prediction : _AttitudePrediction)
    (orbit_prediction : _OrbitPrediction) (observation_time : float64)
  : exc (Attitude * Orbit) :=
  attitude <-
    interpolate_attitude_prediction attitude_prediction observation_time ;;
  orbit <- interpolate_orbit_prediction orbit_prediction observation_time ;;
  Ok (attitude, orbit).

Definition _get_navigation_parameters (point : image_point)
    (static_params : ScanningParameters * ProjectionParameters)
    (predicted_params : _AttitudePrediction * _OrbitPrediction)
  : exc nav_params_t :=
  let '(scan_params, proj_params) := static_params in
  let '(attitude_prediction, orbit_prediction) := predicted_params in
  let obs_time := get_observation_time point scan_params in
  nav <-
    interpolate_navigation_prediction
      attitude_prediction orbit_prediction obs_time ;;
  let '(attitude, orbit) := nav in
  Ok (attitude, orbit, proj_params).

(** The body of the double loop of [_get_lons_lats_numba]: longitude and
    latitude of one cell of the grid. *)
Definition _get_lons_lats_numba_cell (point : image_point)
    (static_params : ScanningParameters * ProjectionParameters)
    (predicted_params : _AttitudePrediction * _OrbitPrediction)
  : exc (float64 * float64) :=
  nav_params <-
    _get_navigation_parameters point static_params predicted_params ;;
  let '(lon, lat) := get_lon_lat point nav_params in
  Ok (lon, lat).

(** The finite time [t] lies outside the interval covered by the finite,
    strictly increasing prediction times: before the first or not before
    the last. *)
Definition outside_prediction (t : R) (times : list float64) : Prop :=
  exists (tr : list R) (t0 tl : R),
    times = map Fin tr /\ strictly_increasing tr /\
    nth_error tr 0 = Some t0 /\
    nth_error tr (List.length tr - 1) = Some tl /\
    (t < t0 \/ tl <= t).

(** An attitude and an orbital position without a value. *)
Definition nan_attitude : Attitude :=
  {| angle_between_earth_and_sun := NaN;
     angle_between_sat_spin_and_z_axis := NaN;
     angle_between_sat_spin_and_yz_plane := NaN |}.

Definition nan_orbit (first : mat3) : Orbit :=
  {| angles := {| greenwich_sidereal_time := NaN;
                  declination_from_sat_to_sun := NaN;
                  right_ascension_from_sat_to_sun := NaN |};
     sat_position := {| pos_x := NaN; pos_y := NaN; pos_z := NaN |};
     nutation_precession := mat_map (fun _ => NaN) first |}.

(** The finite time [t] lies inside the interval covered by the finite,
    strictly increasing prediction times: not before the first and before
    the last. *)
Definition inside_prediction (t : R) (times : list float64) : Prop :=
  exists (tr : list R) (t0 tl : R),
    times = map Fin tr /\ strictly_increasing tr /\
    nth_error tr 0 = Some t0 /\
    nth_error tr (List.length tr - 1) = Some tl /\
    t0 <= t < tl.

(** A series of [n] finite values. *)
Definition finite_series (n : nat) (series : list float64) : Prop :=
  exists r : list R, series = map Fin r /\ List.length r = n.

(** A finite value, and a finite angle of the closed interval [-pi, pi],
    the range of [_wrap_2pi]. *)
Definition finite (a : float64) : Prop := exists r : R, a = Fin r.

Definition wrapped (a : float64) : Prop :=
  exists r : R, a = Fin r /\ - PI <= r <= PI.

(** Predictions at the times 0 and 1: every angle zero, the satellite on
    the y-axis at twice the radius of a unit sphere. *)
Definition sample_attitude_prediction : _AttitudePrediction :=
  {| attitude_prediction_times := [Fin 0; Fin 1];
     predicted_angle_between_earth_and_sun := [Fin 0; Fin 0];
     predicted_angle_between_sat_spin_and_z_axis := [Fin 0; Fin 0];
     predicted_angle_between_sat_spin_and_yz_plane := [Fin 0; Fin 0] |}.

Definition sample_orbit_prediction : _OrbitPrediction :=
  {| orbit_prediction_times := [Fin 0; Fin 1];
     predicted_angles :=
       {| predicted_greenwich_sidereal_time := [Fin 0; Fin 0];
          predicted_declination_from_sat_to_sun := [Fin 0; Fin 0];
          predicted_right_ascension_from_sat_to_sun := [Fin 0; Fin 0] |};
     predicted_sat_position :=
       {| predicted_x := [Fin 0; Fin 0];
          predicted_y := [Fin 2; Fin 2];
          predicted_z := [Fin 0; Fin 0] |};
     predicted_nutation_precession := [identity_matrix; identity_matrix] |}.

(** Scanning parameters with one sensor and the given start of the scan. *)
Definition sample_scan_params (start : R) : ScanningParameters :=
  {| start_time_of_scan := Fin start;
     spinning_rate := Fin 100;
     num_sensors := 1;
     sampling_angle := Fin 0 |}.

(** The series of a prediction are finite and as long as its times. *)
Definition well_formed_attitude_prediction (p : _AttitudePrediction) : Prop :=
  let n := List.length (attitude_prediction_times p) in
  finite_series n (predicted_angle_between_earth_and_sun p) /\
  finite_series n (predicted_angle_between_sat_spin_and_z_axis p) /\
  finite_series n (predicted_angle_between_sat_spin_and_yz_plane p).

Definition well_formed_orbit_prediction (p : _OrbitPrediction) : Prop :=
  let n := List.length (orbit_prediction_times p) in
  finite_series n (predicted_greenwich_sidereal_time (predicted_angles p)) /\
  finite_series n
    (predicted_declination_from_sat_to_sun (predicted_angles p)) /\
  finite_series n
    (predicted_right_ascension_from_sat_to_sun (predicted_angles p)) /\
  finite_series n (predicted_x (predicted_sat_position p)) /\
  finite_series n (predicted_y (predicted_sat_position p)) /\
  finite_series n (predicted_z (predicted_sat_position p)) /\
  List.length (predicted_nutation_precession p) = n.

(** * Properties *)

(** ** Arithmetic on finite values *)

Lemma fadd_Fin (a b : R) : (Fin a + Fin b)%fl = Fin (a + b).
Proof. reflexivity. Qed.

Lemma fsub_Fin (a b : R) : (Fin a - Fin b)%fl = Fin (a - b).
Proof. reflexivity. Qed.

Lemma fmul_Fin (a b : R) : (Fin a * Fin b)%fl = Fin (a * b).
Proof. reflexivity. Qed.

Lemma fneg_Fin (a : R) : (- Fin a)%fl = Fin (- a).
Proof. reflexivity. Qed.

Lemma fpow2_Fin (a : R) : fpow2 (Fin a) = Fin (a ^ 2).
Proof. unfold fpow2; simpl; f_equal; ring. Qed.

Lemma fdiv_Fin (a b : R) : b <> 0 -> (Fin a / Fin b)%fl = Fin (a / b).
Proof.
  intros Hb; simpl.
  destruct (Req_dec_T b 0) as [E | _]; [contradiction | reflexivity].
Qed.

Lemma fsqrt_Fin (a : R) : 0 <= a -> fsqrt (Fin a) = Fin (sqrt a).
Proof.
  intros Ha; simpl.
  destruct (Rlt_dec a 0) as [L | _]; [lra | reflexivity].
Qed.

Lemma fsqrt_neg (a : R) : a < 0 -> fsqrt (Fin a) = NaN.
Proof.
  intros Ha; simpl.
  destruct (Rlt_dec a 0) as [_ | N]; [reflexivity | contradiction].
Qed.

Lemma fleb_Fin (a b : R) : (Fin a <=? Fin b)%fl = true <-> a <= b.
Proof.
  simpl; destruct (Rle_dec a b); split; intros; try easy.
Qed.

Lemma fltb_Fin (a b : R) : (Fin a <? Fin b)%fl = true <-> a < b.
Proof.
  simpl; destruct (Rlt_dec a b); split; intros; try easy.
Qed.

Lemma fmod_Fin (a b : R) : b <> 0 -> fmod (Fin a) (Fin b) = Fin (Rmod a b).
Proof.
  intros Hb; simpl.
  destruct (Req_dec_T b 0) as [E | _]; [contradiction | reflexivity].
Qed.

(** The remainder by a positive divisor is never negative and stays below
    the divisor. *)
Lemma Rmod_bound (a b : R) : 0 < b -> 0 <= Rmod a b < b.
Proof.
  intros Hb; unfold Rmod.
  pose proof (Zfloor_bound (a / b)) as [Hlo Hhi].
  assert (Ha : a = a / b * b) by (field; lra).
  set (k := IZR (Zfloor (a / b))) in *.
  set (q := a / b) in *.
  split; rewrite Ha at 1; nra.
Qed.

Lemma PI2_neq0 : 2 * PI <> 0.
Proof. pose proof PI_RGT_0; lra. Qed.

(** ** Observation time *)

(** C2: for a positive spinning rate and a positive number of sensors the
    observation time of pixel [(line, pixel)] is
    [start_time_of_scan + (floor(line / num_sensors)
       + sampling_angle * (pixel + 1) / (2 pi)) / (1440 * spinning_rate)];
    at the point [(0, 0)] the line term vanishes and the offset is
    [(sampling_angle / (2 pi)) / (1440 * spinning_rate)]. *)
Theorem get_observation_time_formula :
  forall (start rate angle : R) (sensors : Z),
    0 < rate -> (0 < sensors)%Z ->
    let scan_params :=
      {| start_time_of_scan := Fin start;
         spinning_rate := Fin rate;
         num_sensors := sensors;
         sampling_angle := Fin angle |} in
    (forall line pixel : Z,
        get_observation_time (line, pixel) scan_params
        = Fin (start
               + (IZR (Zfloor (IZR line / IZR sensors))
                  + angle * (IZR pixel + 1) / (2 * PI))
                 / (1440 * rate)))
    /\ get_observation_time (0%Z, 0%Z) scan_params
       = Fin (start + angle / (2 * PI) / (1440 * rate)).
Proof.
  intros start rate angle sensors Hrate Hsens scan_params.
  assert (Hn : IZR sensors <> 0) by (apply not_0_IZR; lia).
  assert (Hf : 1440 * rate <> 0) by lra.
  assert (Hgen : forall line pixel : Z,
             get_observation_time (line, pixel) scan_params
             = Fin (start
                    + (IZR (Zfloor (IZR line / IZR sensors))
                       + angle * (IZR pixel + 1) / (2 * PI))
                      / (1440 * rate))).
  { intros line pixel.
    unfold get_observation_time, _get_relative_observation_time, scan_params,
      of_Z, fpi.
    cbn [start_time_of_scan spinning_rate num_sensors sampling_angle].
    replace (line + 1 - 1)%Z with line by lia.
    rewrite !fmul_Fin, (fdiv_Fin _ _ Hn).
    cbn [ffloor].
    rewrite (fdiv_Fin _ _ PI2_neq0), fadd_Fin, (fdiv_Fin _ _ Hf), fadd_Fin.
    rewrite plus_IZR. reflexivity. }
  split; [exact Hgen |].
  rewrite Hgen. f_equal.
  replace (IZR 0 / IZR sensors) with 0 by (field; exact Hn).
  replace (Zfloor 0) with 0%Z by (symmetry; apply Zfloor_eq; simpl; lra).
  simpl. field. pose proof PI_RGT_0. lra.
Qed.

Lemma get_observation_time_formula_witness :
  get_observation_time (0%Z, 0%Z)
    {| start_time_of_scan := Fin 50000;
       spinning_rate := Fin 100;
       num_sensors := 1;
       sampling_angle := Fin (967 / 10000000) |}
  = Fin (50000 + 967 / 10000000 / (2 * PI) / (1440 * 100)).
Proof.
  apply (get_observation_time_formula 50000 100 (967 / 10000000) 1);
    [lra | lia].
Defined.

(** ** The enclosing-index search *)

Section EnclosingIndex.

Variable x : float64.
Variable x_sample : list float64.

Lemma getitem_Some {A : Type} (a : list A) (i : nat) (v : A) :
  nth_error a i = Some v -> getitem a i = Ok v.
Proof. unfold getitem; intros ->; reflexivity. Qed.

(** One step of the loop at an index whose two samples exist. *)
Lemma loop_step_hit (i : nat) (rest : list nat) :
  encloses x x_sample i ->
  _find_enclosing_index_loop x x_sample (i :: rest) = Ok i.
Proof.
  intros (lo & hi & Hlo & Hhi & Hle & Hlt); cbn.
  rewrite (getitem_Some _ _ _ Hlo); cbn; rewrite Hle.
  rewrite (getitem_Some _ _ _ Hhi); cbn; rewrite Hlt.
  reflexivity.
Qed.

Lemma loop_step_miss (i : nat) (rest : list nat) :
  (i + 1 < List.length x_sample)%nat ->
  ~ encloses x x_sample i ->
  _find_enclosing_index_loop x x_sample (i :: rest)
  = _find_enclosing_index_loop x x_sample rest.
Proof.
  intros Hi Hno.
  destruct (nth_error x_sample i) as [lo |] eqn:Hlo;
    [| apply nth_error_None in Hlo; lia].
  destruct (nth_error x_sample (i + 1)) as [hi |] eqn:Hhi;
    [| apply nth_error_None in Hhi; lia].
  cbn. rewrite (getitem_Some _ _ _ Hlo); cbn.
  destruct (lo <=? x)%fl eqn:Hle; [| reflexivity].
  rewrite (getitem_Some _ _ _ Hhi); cbn.
  destruct (x <? hi)%fl eqn:Hlt; [| reflexivity].
  exfalso; apply Hno; exists lo, hi; auto.
Qed.

(** The loop over [start, start + 1, ...] returns the first enclosing
    index it meets and raises when it meets none. *)
Lemma loop_first (n start i : nat) :
  (start + n + 1 <= List.length x_sample)%nat ->
  (start <= i < start + n)%nat ->
  encloses x x_sample i ->
  (forall j, (start <= j < i)%nat -> ~ encloses x x_sample j) ->
  _find_enclosing_index_loop x x_sample (seq start n) = Ok i.
Proof.
  revert start; induction n as [| n IH]; intros start Hlen Hi Henc Hmin;
    [lia |].
  cbn [seq].
  destruct (Nat.eq_dec start i) as [-> | Hne].
  - apply loop_step_hit; exact Henc.
  - rewrite loop_step_miss; [| lia | apply Hmin; lia].
    apply IH; [lia | lia | exact Henc |].
    intros j Hj; apply Hmin; lia.
Qed.

Lemma loop_none (n start : nat) :
  (start + n + 1 <= List.length x_sample)%nat ->
  (forall j, (start <= j < start + n)%nat -> ~ encloses x x_sample j) ->
  _find_enclosing_index_loop x x_sample (seq start n) = Raise not_enclosed.
Proof.
  revert start; induction n as [| n IH]; intros start Hlen Hno;
    [reflexivity |].
  cbn [seq].
  rewrite loop_step_miss; [| lia | apply Hno; lia].
  apply IH; [lia |]. intros j Hj; apply Hno; lia.
Qed.

Lemma encloses_lt (i : nat) :
  encloses x x_sample i -> (i + 1 < List.length x_sample)%nat.
Proof.
  intros (lo & hi & _ & Hhi & _).
  apply nth_error_Some; rewrite Hhi; discriminate.
Qed.

Lemma range_length :
  range (Z.of_nat (List.length x_sample) - 1)
  = seq 0 (List.length x_sample - 1).
Proof. unfold range; f_equal; lia. Qed.

(** The search returns the least enclosing index. *)
Lemma find_first (i : nat) :
  encloses x x_sample i ->
  (forall j, (j < i)%nat -> ~ encloses x x_sample j) ->
  _find_enclosing_index x x_sample = Ok i.
Proof.
  intros Henc Hmin.
  pose proof (encloses_lt i Henc) as Hi.
  unfold _find_enclosing_index; rewrite range_length.
  apply loop_first; [lia | lia | exact Henc |].
  intros j Hj; apply Hmin; lia.
Qed.

(** The search raises when no interval encloses [x]. *)
Lemma find_none :
  (forall j, ~ encloses x x_sample j) ->
  _find_enclosing_index x x_sample = Raise not_enclosed.
Proof.
  intros Hno.
  unfold _find_enclosing_index; rewrite range_length.
  destruct (List.length x_sample) as [| n] eqn:Hlen; [reflexivity |].
  apply loop_none; [lia |]. intros j _; apply Hno.
Qed.

(** Some interval encloses [x], or none does. *)
Lemma encloses_dec (i : nat) :
  encloses x x_sample i \/ ~ encloses x x_sample i.
Proof.
  unfold encloses.
  destruct (nth_error x_sample i) as [lo |];
    [| right; intros (? & ? & H & _); discriminate].
  destruct (nth_error x_sample (i + 1)) as [hi |];
    [| right; intros (? & ? & _ & H & _); discriminate].
  destruct (lo <=? x)%fl eqn:Hle;
    [| right; intros (? & ? & H1 & _ & H3 & _); congruence].
  destruct (x <? hi)%fl eqn:Hlt;
    [| right; intros (? & ? & _ & H2 & _ & H4); congruence].
  left; exists lo, hi; auto.
Qed.

Lemma least_enclosing (i : nat) :
  encloses x x_sample i ->
  exists k, (k <= i)%nat /\ encloses x x_sample k /\
            forall j, (j < k)%nat -> ~ encloses x x_sample j.
Proof.
  induction i as [i IH] using lt_wf_ind; intros Henc.
  assert (Hcase : (exists j, (j < i)%nat /\ encloses x x_sample j)
                  \/ forall j, (j < i)%nat -> ~ encloses x x_sample j).
  { clear IH Henc. induction i as [| i IHi].
    - right; intros j Hj; lia.
    - destruct IHi as [(j & Hj & Hej) | Hno].
      + left; exists j; split; [lia | exact Hej].
      + destruct (encloses_dec i) as [He | Hne].
        * left; exists i; split; [lia | exact He].
        * right; intros j Hj.
          destruct (Nat.eq_dec j i) as [-> | Hd]; [exact Hne |].
          apply Hno; lia. }
  destruct Hcase as [(j & Hj & Hej) | Hno].
  - destruct (IH j Hj Hej) as (k & Hk & Hek & Hmin).
    exists k; repeat split; [lia | exact Hek | exact Hmin].
  - exists i; repeat split; [lia | exact Henc | exact Hno].
Qed.

(** The search either returns an enclosing index or raises its own
    exception; it never fails on an index of [x_sample]. *)
Lemma find_cases :
  (exists i, _find_enclosing_index x x_sample = Ok i /\ encloses x x_sample i /\
             forall j, (j < i)%nat -> ~ encloses x x_sample j)
  \/ (_find_enclosing_index x x_sample = Raise not_enclosed /\
      forall j, ~ encloses x x_sample j).
Proof.
  assert (Hcase :
            (exists i, (i < List.length x_sample)%nat /\ encloses x x_sample i)
            \/ forall i, (i < List.length x_sample)%nat ->
                         ~ encloses x x_sample i).
  { induction (List.length x_sample) as [| n IHn].
    - right; intros i Hi; lia.
    - destruct IHn as [(i & Hi & He) | Hno].
      + left; exists i; split; [lia | exact He].
      + destruct (encloses_dec n) as [He | Hne].
        * left; exists n; split; [lia | exact He].
        * right; intros i Hi.
          destruct (Nat.eq_dec i n) as [-> | Hd]; [exact Hne |].
          apply Hno; lia. }
  destruct Hcase as [(i & _ & He) | Hno].
  - destruct (least_enclosing i He) as (k & _ & Hek & Hmin).
    left; exists k; repeat split; [| exact Hek | exact Hmin].
    apply find_first; assumption.
  - assert (Hall : forall j, ~ encloses x x_sample j).
    { intros j Hj. apply (Hno j); [| exact Hj].
      pose proof (encloses_lt j Hj); lia. }
    right; split; [apply find_none; exact Hall | exact Hall].
Qed.

End EnclosingIndex.

(** ** Finite, strictly increasing sample times *)

Lemma strictly_increasing_nth (xr : list R) :
  strictly_increasing xr ->
  forall i j a b,
    (i < j)%nat -> nth_error xr i = Some a -> nth_error xr j = Some b -> a < b.
Proof.
  induction 1 as [| h t Hs IH Hall]; intros i j a b Hij Ha Hb.
  - destruct i; discriminate.
  - destruct j as [| j]; [lia |].
    destruct i as [| i]; cbn in Ha, Hb.
    + injection Ha as <-.
      rewrite Forall_forall in Hall; apply Hall.
      eapply nth_error_In; exact Hb.
    + apply (IH i j); [lia | exact Ha | exact Hb].
Qed.

Lemma nth_error_map_Fin (xr : list R) (i : nat) (v : float64) :
  nth_error (map Fin xr) i = Some v ->
  exists r, nth_error xr i = Some r /\ v = Fin r.
Proof.
  rewrite nth_error_map.
  destruct (nth_error xr i) as [r |]; cbn; intros H; [| discriminate].
  injection H as <-; exists r; auto.
Qed.

Lemma nth_error_Fin (xr : list R) (i : nat) (r : R) :
  nth_error xr i = Some r -> nth_error (map Fin xr) i = Some (Fin r).
Proof. intros H; rewrite nth_error_map, H; reflexivity. Qed.

(** On finite samples [encloses] is the interval test on reals. *)
Lemma encloses_Fin (x : R) (xr : list R) (i : nat) :
  encloses (Fin x) (map Fin xr) i <->
  exists lo hi, nth_error xr i = Some lo /\ nth_error xr (i + 1) = Some hi /\
                lo <= x < hi.
Proof.
  split.
  - intros (lo & hi & Hlo & Hhi & Hle & Hlt).
    apply nth_error_map_Fin in Hlo as (a & Ha & ->).
    apply nth_error_map_Fin in Hhi as (b & Hb & ->).
    apply fleb_Fin in Hle. apply fltb_Fin in Hlt.
    exists a, b; auto.
  - intros (lo & hi & Hlo & Hhi & Hle & Hlt).
    exists (Fin lo), (Fin hi); repeat split;
      [apply nth_error_Fin; exact Hlo | apply nth_error_Fin; exact Hhi
      | apply fleb_Fin; exact Hle | apply fltb_Fin; exact Hlt].
Qed.

(** A query before the first sample time, or at or after the last one, is
    enclosed by no interval. *)
Lemma out_of_range_not_enclosed (x : R) (xr : list R) (x0 xl : R) :
  strictly_increasing xr ->
  nth_error xr 0 = Some x0 ->
  nth_error xr (List.length xr - 1) = Some xl ->
  x < x0 \/ xl <= x ->
  forall j, ~ encloses (Fin x) (map Fin xr) j.
Proof.
  intros Hs H0 Hl Hout j Henc.
  pose proof (encloses_lt _ _ _ Henc) as Hj; rewrite length_map in Hj.
  apply encloses_Fin in Henc as (lo & hi & Hlo & Hhi & Hle & Hlt).
  destruct Hout as [Hbefore | Hafter].
  - destruct j as [| j].
    + rewrite H0 in Hlo; injection Hlo as <-; lra.
    + pose proof (strictly_increasing_nth xr Hs 0 (S j) x0 lo
                    ltac:(lia) H0 Hlo); lra.
  - destruct (Nat.eq_dec (j + 1) (List.length xr - 1)) as [E | N].
    + rewrite E, Hl in Hhi; injection Hhi as <-; lra.
    + pose proof (strictly_increasing_nth xr Hs (j + 1) (List.length xr - 1)
                    hi xl ltac:(lia) Hhi Hl); lra.
Qed.

(** A query between the first and the last sample time is enclosed by some
    interval. *)
Lemma in_range_enclosed (x : R) (xr : list R) (n i : nat) (a b : R) :
  nth_error xr i = Some a -> nth_error xr (i + n) = Some b ->
  a <= x < b ->
  exists k, encloses (Fin x) (map Fin xr) k.
Proof.
  revert i a; induction n as [| n IH]; intros i a Ha Hb Hx.
  - rewrite Nat.add_0_r, Ha in Hb; injection Hb as <-; lra.
  - destruct (nth_error xr (i + 1)) as [c |] eqn:Hc.
    + destruct (Rlt_dec x c) as [Hlt | Hge].
      * exists i; apply encloses_Fin; exists a, c; repeat split;
          [exact Ha | exact Hc | lra | exact Hlt].
      * apply (IH (i + 1)%nat c); [exact Hc | | lra].
        replace (i + 1 + n)%nat with (i + S n)%nat by lia; exact Hb.
    + apply nth_error_None in Hc.
      assert (i + S n < List.length xr)%nat
        by (apply nth_error_Some; rewrite Hb; discriminate).
      lia.
Qed.

(** ** Linear interpolation *)

(** The value computed once the search has returned [i] and the four
    samples exist. *)
Lemma interpolate_at (x : float64) (x_sample y_sample : list float64)
    (i : nat) (x_lo x_hi y_lo y_hi : float64) :
  _find_enclosing_index x x_sample = Ok i ->
  nth_error x_sample i = Some x_lo ->
  nth_error x_sample (i + 1) = Some x_hi ->
  nth_error y_sample i = Some y_lo ->
  nth_error y_sample (i + 1) = Some y_hi ->
  _interpolate x x_sample y_sample
  = Ok (y_lo + (y_hi - y_lo) / (x_hi - x_lo) * (x - x_lo))%fl.
Proof.
  intros Hi Hxl Hxh Hyl Hyh.
  unfold _interpolate; rewrite Hi; cbn [bind].
  rewrite (getitem_Some _ _ _ Hyl), (getitem_Some _ _ _ Hxh),
    (getitem_Some _ _ _ Hxl), (getitem_Some _ _ _ Hyh).
  reflexivity.
Qed.

(** On finite samples of equal length an enclosed query is interpolated
    linearly between the two neighbouring samples. *)
Lemma interpolate_continuous_enclosed (x : R) (xr yr : list R) :
  List.length yr = List.length xr ->
  (exists k, encloses (Fin x) (map Fin xr) k) ->
  exists i x_lo x_hi y_lo y_hi,
    _find_enclosing_index (Fin x) (map Fin xr) = Ok i /\
    nth_error xr i = Some x_lo /\ nth_error xr (i + 1) = Some x_hi /\
    nth_error yr i = Some y_lo /\ nth_error yr (i + 1) = Some y_hi /\
    x_lo <= x < x_hi /\
    interpolate_continuous (Fin x) (map Fin xr) (map Fin yr)
    = Ok (Fin (y_lo + (y_hi - y_lo) / (x_hi - x_lo) * (x - x_lo))).
Proof.
  intros Hlen (k & Hk).
  destruct (find_cases (Fin x) (map Fin xr))
    as [(i & Hfind & Henc & _) | (_ & Hno)]; [| destruct (Hno k Hk)].
  pose proof (encloses_lt _ _ _ Henc) as Hi; rewrite length_map in Hi.
  apply encloses_Fin in Henc as (x_lo & x_hi & Hlo & Hhi & Hx).
  destruct (nth_error yr i) as [y_lo |] eqn:Hyl;
    [| apply nth_error_None in Hyl; lia].
  destruct (nth_error yr (i + 1)) as [y_hi |] eqn:Hyh;
    [| apply nth_error_None in Hyh; lia].
  exists i, x_lo, x_hi, y_lo, y_hi; repeat split; try assumption; try lra.
  unfold interpolate_continuous.
  rewrite (interpolate_at _ _ _ i (Fin x_lo) (Fin x_hi) (Fin y_lo) (Fin y_hi)
             Hfind (nth_error_Fin _ _ _ Hlo) (nth_error_Fin _ _ _ Hhi)
             (nth_error_Fin _ _ _ Hyl) (nth_error_Fin _ _ _ Hyh)).
  cbn [try_except].
  rewrite !fsub_Fin, fdiv_Fin by lra.
  reflexivity.
Qed.

(** The continuous interpolator never raises. *)
Lemma interpolate_continuous_total (x : float64)
    (x_sample y_sample : list float64) :
  exists v, interpolate_continuous x x_sample y_sample = Ok v.
Proof.
  unfold interpolate_continuous.
  destruct (_interpolate x x_sample y_sample) as [v | e]; cbn;
    [exists v | exists NaN]; reflexivity.
Qed.

Lemma wrap_2pi_Fin (w : R) :
  _wrap_2pi (Fin w) = Fin (Rmod (w + PI) (2 * PI) - PI).
Proof.
  unfold _wrap_2pi, fpi.
  rewrite fadd_Fin, fmul_Fin, (fmod_Fin _ _ PI2_neq0), fsub_Fin.
  reflexivity.
Qed.

Lemma wrap_2pi_NaN : _wrap_2pi NaN = NaN.
Proof. reflexivity. Qed.

Lemma nan_like (m : mat3) :
  scale_mat NaN (ones_like m) = mat_map (fun _ => NaN) m.
Proof. destruct m as [[[[a b] c] [[d e] f]] [[g h] k]]; reflexivity. Qed.

(** ** The interpolators *)

(** C3: over strictly increasing sample times with parallel values, a query
    strictly before the first sample time or at or after the last one
    (the last sample time itself included) is enclosed by no interval: the
    search raises, and all three interpolators return not-a-number instead
    of raising; the nearest-neighbour one returns an array shaped like the
    first sample and filled with not-a-number. *)
Theorem out_of_range_is_nan :
  forall (x : R) (xr : list R) (ys : list float64) (ms : list mat3)
         (x0 xl : R),
    strictly_increasing xr ->
    List.length ys = List.length xr ->
    List.length ms = List.length xr ->
    nth_error xr 0 = Some x0 ->
    nth_error xr (List.length xr - 1) = Some xl ->
    x < x0 \/ xl <= x ->
    _find_enclosing_index (Fin x) (map Fin xr) = Raise not_enclosed /\
    interpolate_continuous (Fin x) (map Fin xr) ys = Ok NaN /\
    interpolate_angles (Fin x) (map Fin xr) ys = Ok NaN /\
    exists first,
      nth_error ms 0 = Some first /\
      interpolate_nearest (Fin x) (map Fin xr) ms
      = Ok (mat_map (fun _ => NaN) first).
Proof.
  intros x xr ys ms x0 xl Hs Hys Hms H0 Hl Hout.
  assert (Hfind : _find_enclosing_index (Fin x) (map Fin xr)
                  = Raise not_enclosed).
  { apply find_none.
    apply (out_of_range_not_enclosed x xr x0 xl); assumption. }
  assert (Hcont : interpolate_continuous (Fin x) (map Fin xr) ys = Ok NaN).
  { unfold interpolate_continuous, _interpolate; rewrite Hfind; reflexivity. }
  repeat split; [exact Hfind | exact Hcont | |].
  - unfold interpolate_angles; rewrite Hcont; reflexivity.
  - destruct ms as [| first rest].
    + destruct xr; cbn in H0, Hms; discriminate.
    + exists first; split; [reflexivity |].
      unfold interpolate_nearest, _interpolate_nearest; rewrite Hfind.
      cbn. rewrite nan_like. reflexivity.
Qed.

Lemma out_of_range_is_nan_witness :
  _find_enclosing_index (Fin 2) (map Fin [0; 1; 2]) = Raise not_enclosed /\
  interpolate_continuous (Fin 2) (map Fin [0; 1; 2]) [Fin 5; Fin 7; Fin 11]
  = Ok NaN /\
  interpolate_angles (Fin 2) (map Fin [0; 1; 2]) [Fin 5; Fin 7; Fin 11]
  = Ok NaN /\
  exists first,
    nth_error [identity_matrix; identity_matrix; identity_matrix] 0
    = Some first /\
    interpolate_nearest (Fin 2) (map Fin [0; 1; 2])
      [identity_matrix; identity_matrix; identity_matrix]
    = Ok (mat_map (fun _ => NaN) first).
Proof.
  apply (out_of_range_is_nan 2 [0; 1; 2] [Fin 5; Fin 7; Fin 11]
           [identity_matrix; identity_matrix; identity_matrix] 0 2).
  - unfold strictly_increasing.
    repeat (constructor; try lra).
  - reflexivity.
  - reflexivity.
  - reflexivity.
  - reflexivity.
  - right; lra.
Defined.

(** C6: querying the continuous interpolator at the sample time
    [x_sample[i]], for [i] below the last index, over strictly increasing
    sample times and parallel values, returns [y_sample[i]]: the distance
    term of the interpolation vanishes. *)
Theorem exact_resampling :
  forall (xr yr : list R) (i : nat) (xi yi : R),
    strictly_increasing xr ->
    List.length yr = List.length xr ->
    (i < List.length xr - 1)%nat ->
    nth_error xr i = Some xi ->
    nth_error yr i = Some yi ->
    interpolate_continuous (Fin xi) (map Fin xr) (map Fin yr) = Ok (Fin yi).
Proof.
  intros xr yr i xi yi Hs Hlen Hi Hxi Hyi.
  destruct (nth_error xr (i + 1)) as [x_hi |] eqn:Hxh;
    [| apply nth_error_None in Hxh; lia].
  destruct (nth_error yr (i + 1)) as [y_hi |] eqn:Hyh;
    [| apply nth_error_None in Hyh; lia].
  assert (Hlt : xi < x_hi)
    by (apply (strictly_increasing_nth xr Hs i (i + 1)); [lia | auto | auto]).
  assert (Hfind : _find_enclosing_index (Fin xi) (map Fin xr) = Ok i).
  { apply find_first.
    - apply encloses_Fin; exists xi, x_hi; repeat split; auto; lra.
    - intros j Hj Henc.
      apply encloses_Fin in Henc as (lo & hi & _ & Hhi & _ & Hbad).
      destruct (Nat.eq_dec (j + 1) i) as [E | N].
      + rewrite E, Hxi in Hhi; injection Hhi as <-; lra.
      + pose proof (strictly_increasing_nth xr Hs (j + 1) i hi xi
                      ltac:(lia) Hhi Hxi); lra. }
  unfold interpolate_continuous.
  rewrite (interpolate_at _ _ _ i (Fin xi) (Fin x_hi) (Fin yi) (Fin y_hi)
             Hfind (nth_error_Fin _ _ _ Hxi) (nth_error_Fin _ _ _ Hxh)
             (nth_error_Fin _ _ _ Hyi) (nth_error_Fin _ _ _ Hyh)).
  cbn [try_except].
  rewrite !fsub_Fin, fdiv_Fin, fmul_Fin, fadd_Fin by lra.
  do 2 f_equal. field. lra.
Qed.

Lemma exact_resampling_witness :
  interpolate_continuous (Fin 1) (map Fin [0; 1; 2]) (map Fin [5; 7; 11])
  = Ok (Fin 7).
Proof.
  apply (exact_resampling [0; 1; 2] [5; 7; 11] 1 1 7).
  - unfold strictly_increasing.
    repeat (constructor; try lra).
  - reflexivity.
  - cbn; lia.
  - reflexivity.
  - reflexivity.
Defined.

(** C4: for a query inside the sampled interval, over strictly increasing
    sample times and parallel finite values, [interpolate_angles] returns
    [((v + pi) mod 2 pi) - pi] for the linearly interpolated [v], the
    remainder lies in [0, 2 pi), and the result lies in [-pi, pi]. *)
Theorem interpolate_angles_range :
  forall (x : R) (xr yr : list R) (x0 xl : R),
    strictly_increasing xr ->
    List.length yr = List.length xr ->
    nth_error xr 0 = Some x0 ->
    nth_error xr (List.length xr - 1) = Some xl ->
    x0 <= x < xl ->
    exists v : R,
      interpolate_continuous (Fin x) (map Fin xr) (map Fin yr) = Ok (Fin v) /\
      interpolate_angles (Fin x) (map Fin xr) (map Fin yr)
      = Ok (Fin (Rmod (v + PI) (2 * PI) - PI)) /\
      0 <= Rmod (v + PI) (2 * PI) < 2 * PI /\
      - PI <= Rmod (v + PI) (2 * PI) - PI <= PI.
Proof.
  intros x xr yr x0 xl _ Hlen H0 Hl Hx.
  destruct (interpolate_continuous_enclosed x xr yr Hlen)
    as (i & x_lo & x_hi & y_lo & y_hi & _ & _ & _ & _ & _ & _ & Hcont).
  { apply (in_range_enclosed x xr (List.length xr - 1) 0 x0 xl);
      [exact H0 | exact Hl | exact Hx]. }
  eexists; split; [exact Hcont |].
  assert (Hpos : 0 < 2 * PI) by (pose proof PI_RGT_0; lra).
  match goal with
  | |- context [Rmod ?a ?b] => pose proof (Rmod_bound a b Hpos) as Hb
  end.
  repeat split; try lra.
  unfold interpolate_angles; rewrite Hcont; cbn [bind].
  rewrite wrap_2pi_Fin; reflexivity.
Qed.

Lemma interpolate_angles_range_witness :
  exists v : R,
    interpolate_continuous (Fin (1 / 2)) (map Fin [0; 1]) (map Fin [3; 4])
    = Ok (Fin v) /\
    interpolate_angles (Fin (1 / 2)) (map Fin [0; 1]) (map Fin [3; 4])
    = Ok (Fin (Rmod (v + PI) (2 * PI) - PI)) /\
    0 <= Rmod (v + PI) (2 * PI) < 2 * PI /\
    - PI <= Rmod (v + PI) (2 * PI) - PI <= PI.
Proof.
  apply (interpolate_angles_range (1 / 2) [0; 1] [3; 4] 0 1).
  - unfold strictly_increasing.
    repeat (constructor; try lra).
  - reflexivity.
  - reflexivity.
  - reflexivity.
  - lra.
Defined.

(** C8: [interpolate_angles] is [_wrap_2pi] applied to the result of
    [interpolate_continuous] on the same arguments, which always returns:
    the search and the linear interpolation are those of the continuous
    interpolator, and the wrapping [((v + pi) mod 2 pi) - pi] is the only
    addition; it keeps not-a-number. *)
Theorem interpolate_angles_wraps_continuous :
  forall (x : float64) (x_sample y_sample : list float64),
    (exists v,
        interpolate_continuous x x_sample y_sample = Ok v /\
        interpolate_angles x x_sample y_sample = Ok (_wrap_2pi v)) /\
    (forall w : R, _wrap_2pi (Fin w) = Fin (Rmod (w + PI) (2 * PI) - PI)) /\
    _wrap_2pi NaN = NaN.
Proof.
  intros x x_sample y_sample.
  split; [| split; [exact wrap_2pi_Fin | exact wrap_2pi_NaN]].
  destruct (interpolate_continuous_total x x_sample y_sample) as (v & Hv).
  exists v; split; [exact Hv |].
  unfold interpolate_angles; rewrite Hv; reflexivity.
Qed.

(** ** Intersection with the earth *)

Lemma fmin_Fin (a b : R) : fmin (Fin a) (Fin b) = Fin (Rmin a b).
Proof.
  unfold fmin, Rmin; cbn.
  destruct (Rlt_dec b a), (Rle_dec a b); try reflexivity; f_equal; lra.
Qed.

Section QuadraticFacts.

Variables ux uy uz px py pz radius f : R.

Local Abbreviation k := (quad_k f).
Local Abbreviation a := (quad_a ux uy uz f).
Local Abbreviation b := (quad_b ux uy uz px py pz f).
Local Abbreviation c := (quad_c px py pz radius f).
Local Abbreviation disc := (quad_disc ux uy uz px py pz radius f).

Lemma quad_a_pos :
  f < 1 -> (ux <> 0 \/ uy <> 0 \/ uz <> 0) -> 0 < a.
Proof.
  intros Hf Hu; unfold quad_a, quad_k.
  assert (Hk : 0 < (1 - f) ^ 2) by nra.
  pose proof (pow2_ge_0 ux); pose proof (pow2_ge_0 uy);
    pose proof (pow2_ge_0 uz).
  destruct Hu as [Hu | [Hu | Hu]].
  - assert (0 < ux ^ 2) by nra. nra.
  - assert (0 < uy ^ 2) by nra. nra.
  - assert (0 < uz ^ 2) by nra. nra.
Qed.

(** A number [(-b + s) / a] with [s^2 = b^2 - a c] solves the quadratic. *)
Lemma quad_root_is_root (s : R) :
  a <> 0 -> s * s = disc ->
  let t := (- b + s) / a in
  a * t ^ 2 + 2 * b * t + c = 0.
Proof.
  intros Ha Hs t; subst t.
  replace (a * ((- b + s) / a) ^ 2 + 2 * b * ((- b + s) / a) + c)
    with ((s * s - (b ^ 2 - a * c)) / a)
    by (field; exact Ha).
  rewrite Hs; unfold quad_disc; field; exact Ha.
Qed.

(** The two distances computed on finite arguments are the quotients of
    [-b + sqrt(b^2 - a c)] and [-b - sqrt(b^2 - a c)] by [a]; they are
    used below for [a] other than zero. *)
Lemma distances_quotients :
  0 <= disc ->
  _get_distances_to_intersections
    (Fin ux, Fin uy, Fin uz) (Fin px, Fin py, Fin pz) (Fin radius, Fin f)
  = ((Fin (- b + sqrt disc) / Fin a)%fl, (Fin (- b - sqrt disc) / Fin a)%fl).
Proof.
  intros Hd.
  unfold _get_distances_to_intersections.
  rewrite !fsub_Fin, !fpow2_Fin, !fadd_Fin, !fmul_Fin, !fadd_Fin,
    !fsub_Fin, !fmul_Fin, !fadd_Fin, !fpow2_Fin, !fmul_Fin, !fsub_Fin.
  fold k a b c disc.
  rewrite (fsqrt_Fin _ Hd), !fneg_Fin, fadd_Fin, fsub_Fin.
  reflexivity.
Qed.

(** They are the two roots when [a] is not zero. *)
Lemma distances_Fin :
  a <> 0 -> 0 <= disc ->
  _get_distances_to_intersections
    (Fin ux, Fin uy, Fin uz) (Fin px, Fin py, Fin pz) (Fin radius, Fin f)
  = (Fin (quad_root1 ux uy uz px py pz radius f),
     Fin (quad_root2 ux uy uz px py pz radius f)).
Proof.
  intros Ha Hd.
  rewrite (distances_quotients Hd), !(fdiv_Fin _ _ Ha).
  reflexivity.
Qed.

(** With a negative discriminant both distances are not-a-number. *)
Lemma distances_miss :
  disc < 0 ->
  _get_distances_to_intersections
    (Fin ux, Fin uy, Fin uz) (Fin px, Fin py, Fin pz) (Fin radius, Fin f)
  = (NaN, NaN).
Proof.
  intros Hd.
  unfold _get_distances_to_intersections.
  rewrite !fsub_Fin, !fpow2_Fin, !fadd_Fin, !fmul_Fin, !fadd_Fin,
    !fsub_Fin, !fmul_Fin, !fadd_Fin, !fpow2_Fin, !fmul_Fin, !fsub_Fin.
  fold k a b c disc.
  rewrite (fsqrt_neg _ Hd), !fneg_Fin.
  reflexivity.
Qed.

End QuadraticFacts.

(** C1: for a view vector [u] other than zero, a satellite position [p],
    an equatorial radius above zero and a flattening in [0, 1), when the
    discriminant of [a t^2 + 2 b t + c = 0] is not negative, the two
    distances computed are the two roots
    [(-b + sqrt(b^2 - a c)) / a] and [(-b - sqrt(b^2 - a c)) / a] of the
    quadratic, the distance chosen is the smaller root and the
    intersection is [p + distance * u].  (With the zero vector [a] is zero
    and there is no quadratic to solve.)  Looking straight down from
    height [H] on the z-axis at a sphere of radius [R < H], the distance
    chosen is [H - R] and the intersection is the point [(0, 0, R)]. *)
Theorem near_side_intersection :
  (forall ux uy uz px py pz radius f : R,
      0 < radius -> 0 <= f < 1 ->
      ux <> 0 \/ uy <> 0 \/ uz <> 0 ->
      0 <= quad_disc ux uy uz px py pz radius f ->
      let t1 := quad_root1 ux uy uz px py pz radius f in
      let t2 := quad_root2 ux uy uz px py pz radius f in
      let t := Rmin t1 t2 in
      let view_vector := (Fin ux, Fin uy, Fin uz) in
      let sat_pos := (Fin px, Fin py, Fin pz) in
      let ellipsoid := (Fin radius, Fin f) in
      _get_distances_to_intersections view_vector sat_pos ellipsoid
      = (Fin t1, Fin t2) /\
      _get_distance_to_intersection view_vector sat_pos ellipsoid = Fin t /\
      quad_a ux uy uz f * t ^ 2 + 2 * quad_b ux uy uz px py pz f * t
      + quad_c px py pz radius f = 0 /\
      intersect_with_earth view_vector sat_pos ellipsoid
      = (Fin (px + t * ux), Fin (py + t * uy), Fin (pz + t * uz)))
  /\
  (forall h r : R,
      0 < r < h ->
      let view_vector := (Fin 0, Fin 0, Fin (-1)) in
      let sat_pos := (Fin 0, Fin 0, Fin h) in
      let ellipsoid := (Fin r, Fin 0) in
      _get_distance_to_intersection view_vector sat_pos ellipsoid
      = Fin (h - r) /\
      intersect_with_earth view_vector sat_pos ellipsoid
      = (Fin 0, Fin 0, Fin r)).
Proof.
  assert (Hgen : forall ux uy uz px py pz radius f : R,
             f < 1 -> ux <> 0 \/ uy <> 0 \/ uz <> 0 ->
             0 <= quad_disc ux uy uz px py pz radius f ->
             let t := Rmin (quad_root1 ux uy uz px py pz radius f)
                           (quad_root2 ux uy uz px py pz radius f) in
             _get_distance_to_intersection
               (Fin ux, Fin uy, Fin uz) (Fin px, Fin py, Fin pz)
               (Fin radius, Fin f) = Fin t /\
             intersect_with_earth
               (Fin ux, Fin uy, Fin uz) (Fin px, Fin py, Fin pz)
               (Fin radius, Fin f)
             = (Fin (px + t * ux), Fin (py + t * uy), Fin (pz + t * uz))).
  { intros ux uy uz px py pz radius f Hf Hu Hd t.
    assert (Ha : quad_a ux uy uz f <> 0)
      by (pose proof (quad_a_pos ux uy uz f Hf Hu); lra).
    assert (Hdist : _get_distance_to_intersection
                      (Fin ux, Fin uy, Fin uz) (Fin px, Fin py, Fin pz)
                      (Fin radius, Fin f) = Fin t).
    { unfold _get_distance_to_intersection.
      rewrite (distances_Fin ux uy uz px py pz radius f Ha Hd).
      apply fmin_Fin. }
    split; [exact Hdist |].
    unfold intersect_with_earth; rewrite Hdist; reflexivity. }
  split.
  - intros ux uy uz px py pz radius f _ [_ Hf] Hu Hd t1 t2 t u p e.
    assert (Ha : quad_a ux uy uz f <> 0)
      by (pose proof (quad_a_pos ux uy uz f Hf Hu); lra).
    destruct (Hgen ux uy uz px py pz radius f Hf Hu Hd) as [Hdist Hpoint].
    repeat split;
      [apply distances_Fin; assumption | exact Hdist | | exact Hpoint].
    assert (Hs : sqrt (quad_disc ux uy uz px py pz radius f)
                 * sqrt (quad_disc ux uy uz px py pz radius f)
                 = quad_disc ux uy uz px py pz radius f)
      by (apply sqrt_sqrt; exact Hd).
    subst t; unfold Rmin; destruct (Rle_dec t1 t2).
    + apply (quad_root_is_root ux uy uz px py pz radius f _ Ha Hs).
    + subst t2; unfold quad_root2.
      apply (quad_root_is_root ux uy uz px py pz radius f
               (- sqrt (quad_disc ux uy uz px py pz radius f)) Ha).
      rewrite <- Hs at 3; ring.
  - intros h r [Hr Hh] u p e.
    assert (Hdisc : quad_disc 0 0 (-1) 0 0 h r 0 = r * r)
      by (unfold quad_disc, quad_a, quad_b, quad_c, quad_k; ring).
    assert (Hd : 0 <= quad_disc 0 0 (-1) 0 0 h r 0) by (rewrite Hdisc; nra).
    assert (Hu : (0 : R) <> 0 \/ (0 : R) <> 0 \/ -1 <> 0)
      by (right; right; lra).
    destruct (Hgen 0 0 (-1) 0 0 h r 0 ltac:(lra) Hu Hd) as [Hdist Hpoint].
    assert (Ht : Rmin (quad_root1 0 0 (-1) 0 0 h r 0)
                      (quad_root2 0 0 (-1) 0 0 h r 0) = h - r).
    { unfold quad_root1, quad_root2; rewrite Hdisc, sqrt_square by lra.
      unfold quad_b, quad_a, quad_k.
      replace ((- ((1 - 0) ^ 2 * (0 * 0 + 0 * 0) + h * -1) + r)
               / ((1 - 0) ^ 2 * (0 ^ 2 + 0 ^ 2) + (-1) ^ 2))
        with (h + r) by field.
      replace ((- ((1 - 0) ^ 2 * (0 * 0 + 0 * 0) + h * -1) - r)
               / ((1 - 0) ^ 2 * (0 ^ 2 + 0 ^ 2) + (-1) ^ 2))
        with (h - r) by field.
      apply Rmin_right; lra. }
    subst u p e; rewrite Hdist, Hpoint, Ht.
    split; [reflexivity |].
    repeat f_equal; ring.
Qed.

Lemma near_side_intersection_witness :
  _get_distance_to_intersection
    (Fin 0, Fin 0, Fin (-1)) (Fin 0, Fin 0, Fin 2) (Fin 1, Fin 0)
  = Fin (Rmin (quad_root1 0 0 (-1) 0 0 2 1 0) (quad_root2 0 0 (-1) 0 0 2 1 0))
  /\ _get_distance_to_intersection
       (Fin 0, Fin 0, Fin (-1)) (Fin 0, Fin 0, Fin 2) (Fin 1, Fin 0)
     = Fin (2 - 1).
Proof.
  destruct near_side_intersection as (Hroots & Hdown).
  split.
  - apply (Hroots 0 0 (-1) 0 0 2 1 0).
    + lra.
    + lra.
    + right; right; lra.
    + unfold quad_disc, quad_a, quad_b, quad_c, quad_k; lra.
  - apply (Hdown 2 1); lra.
Defined.

(** ** Geodetic coordinates *)

Lemma Rrad2deg_PI : Rrad2deg PI = 180.
Proof. unfold Rrad2deg; field; pose proof PI_RGT_0; lra. Qed.

Lemma Rrad2deg_le (a b : R) : a <= b -> Rrad2deg a <= Rrad2deg b.
Proof.
  intros Hab; unfold Rrad2deg.
  apply Rmult_le_compat_r; [| exact Hab].
  pose proof PI_RGT_0 as Hpi.
  apply Rlt_le, Rdiv_lt_0_compat; lra.
Qed.

Lemma Rrad2deg_lt (a b : R) : a < b -> Rrad2deg a < Rrad2deg b.
Proof.
  intros Hab; unfold Rrad2deg.
  apply Rmult_lt_compat_r; [| exact Hab].
  pose proof PI_RGT_0 as Hpi.
  apply Rdiv_lt_0_compat; lra.
Qed.

(** [Ratan2 y x] is the polar angle of the point [(x, y)]. *)
Lemma sqrt_ratio (y x : R) :
  x <> 0 -> sqrt (1 + (y / x)²) = sqrt (x ^ 2 + y ^ 2) / Rabs x.
Proof.
  intros Hx.
  assert (Hax : 0 < Rabs x) by (apply Rabs_pos_lt; exact Hx).
  assert (Hr : 0 <= sqrt (x ^ 2 + y ^ 2)) by apply sqrt_pos.
  assert (Hrr : sqrt (x ^ 2 + y ^ 2) * sqrt (x ^ 2 + y ^ 2) = x ^ 2 + y ^ 2).
  { apply sqrt_sqrt. pose proof (pow2_ge_0 x); pose proof (pow2_ge_0 y); lra. }
  assert (Haa : Rabs x * Rabs x = x ^ 2).
  { replace (x ^ 2) with (x * x) by ring.
    unfold Rabs; destruct (Rcase_abs x); ring. }
  apply sqrt_lem_1.
  - unfold Rsqr. nra.
  - apply Rmult_le_pos; [exact Hr | apply Rlt_le, Rinv_0_lt_compat; exact Hax].
  - unfold Rsqr.
    replace (sqrt (x ^ 2 + y ^ 2) / Rabs x * (sqrt (x ^ 2 + y ^ 2) / Rabs x))
      with ((sqrt (x ^ 2 + y ^ 2) * sqrt (x ^ 2 + y ^ 2)) / (Rabs x * Rabs x))
      by (field; lra).
    rewrite Hrr, Haa. field. exact Hx.
Qed.

Lemma Ratan2_polar (y x : R) :
  x <> 0 \/ y <> 0 ->
  x = sqrt (x ^ 2 + y ^ 2) * cos (Ratan2 y x) /\
  y = sqrt (x ^ 2 + y ^ 2) * sin (Ratan2 y x).
Proof.
  intros Hxy.
  assert (Hpos : 0 < x ^ 2 + y ^ 2).
  { pose proof (pow2_ge_0 x); pose proof (pow2_ge_0 y).
    destruct Hxy as [H1 | H1].
    - assert (0 < x ^ 2) by nra. lra.
    - assert (0 < y ^ 2) by nra. lra. }
  assert (Hr : 0 < sqrt (x ^ 2 + y ^ 2)) by (apply sqrt_lt_R0; exact Hpos).
  unfold Ratan2.
  destruct (Rlt_dec 0 x) as [Hx | Hx].
  - rewrite cos_atan, sin_atan, sqrt_ratio by lra.
    rewrite Rabs_right by lra.
    split; field; lra.
  - destruct (Rlt_dec x 0) as [Hx' | Hx'].
    + destruct (Rle_dec 0 y) as [Hy | Hy].
      * rewrite neg_cos, neg_sin, cos_atan, sin_atan, sqrt_ratio by lra.
        rewrite Rabs_left by lra.
        split; field; lra.
      * rewrite cos_minus, sin_minus, cos_PI, sin_PI.
        rewrite cos_atan, sin_atan, sqrt_ratio by lra.
        rewrite Rabs_left by lra.
        split; field; lra.
    + assert (x = 0) by lra; subst x.
      replace (0 ^ 2 + y ^ 2) with (y * y) in * by ring.
      destruct (Rlt_dec 0 y) as [Hy | Hy].
      * rewrite cos_PI2, sin_PI2, sqrt_square by lra. lra.
      * destruct (Rlt_dec y 0) as [Hy' | Hy']; [| destruct Hxy; lra].
        rewrite cos_neg, sin_neg, cos_PI2, sin_PI2.
        replace (y * y) with ((- y) * (- y)) by ring.
        rewrite sqrt_square by lra. lra.
Qed.

(** The two-argument arctangent lies in (-pi, pi]. *)
Lemma Ratan2_bound (y x : R) : - PI < Ratan2 y x <= PI.
Proof.
  pose proof PI_RGT_0 as Hpi.
  pose proof (atan_bound (y / x)) as [Hlo Hhi].
  unfold Ratan2.
  destruct (Rlt_dec 0 x) as [Hx | Hx]; [lra |].
  destruct (Rlt_dec x 0) as [Hx' | Hx'].
  - destruct (Rle_dec 0 y) as [Hy | Hy].
    + assert (Hq : y / x <= 0).
      { unfold Rdiv. assert (/ x < 0) by (apply Rinv_lt_0_compat; exact Hx').
        nra. }
      assert (atan (y / x) <= 0).
      { destruct Hq as [Hq | Hq].
        - pose proof (atan_increasing _ _ Hq) as Hi; rewrite atan_0 in Hi; lra.
        - rewrite Hq, atan_0; lra. }
      lra.
    + assert (Hq : 0 < y / x).
      { unfold Rdiv. assert (/ x < 0) by (apply Rinv_lt_0_compat; exact Hx').
        nra. }
      pose proof (atan_increasing _ _ Hq) as Hi; rewrite atan_0 in Hi; lra.
  - destruct (Rlt_dec 0 y); [lra |].
    destruct (Rlt_dec y 0); lra.
Qed.

(** Right of the y-axis, the y-axis included, it lies in [-pi/2, pi/2]. *)
Lemma Ratan2_right_half (y x : R) :
  0 <= x -> - (PI / 2) <= Ratan2 y x <= PI / 2.
Proof.
  intros Hx0.
  pose proof PI_RGT_0 as Hpi.
  pose proof (atan_bound (y / x)) as [Hlo Hhi].
  unfold Ratan2.
  destruct (Rlt_dec 0 x) as [Hx | Hx]; [lra |].
  destruct (Rlt_dec x 0) as [Hx' | Hx']; [lra |].
  destruct (Rlt_dec 0 y); [lra |].
  destruct (Rlt_dec y 0); lra.
Qed.

(** The geodetic conversion of a finite point. *)
Lemma geodetic_Fin (x y z f : R) :
  transform_earth_fixed_to_geodetic_coords (Fin x, Fin y, Fin z) (Fin f)
  = (Fin (Rrad2deg (Ratan2 y x)),
     Fin (Rrad2deg (Ratan2 z ((1 - f) ^ 2 * sqrt (x ^ 2 + y ^ 2))))).
Proof.
  unfold transform_earth_fixed_to_geodetic_coords.
  rewrite fsub_Fin, !fpow2_Fin, fadd_Fin.
  rewrite fsqrt_Fin
    by (pose proof (pow2_ge_0 x); pose proof (pow2_ge_0 y); lra).
  rewrite fmul_Fin. reflexivity.
Qed.

(** C7: for a finite earth-fixed point [(x, y, z)] and a finite flattening
    [f] the geodetic conversion returns [lon = atan2(y, x)] and
    [lat = atan2(z, (1 - f)^2 * sqrt(x^2 + y^2))], each converted from
    radians to degrees (multiplied by [180 / pi]). *)
Theorem geodetic_coords_formula :
  forall x y z f : R,
    transform_earth_fixed_to_geodetic_coords (Fin x, Fin y, Fin z) (Fin f)
    = (Fin (Ratan2 y x * (180 / PI)),
       Fin (Ratan2 z ((1 - f) ^ 2 * sqrt (x ^ 2 + y ^ 2)) * (180 / PI))).
Proof. exact geodetic_Fin. Qed.

(** For a finite earth-fixed point and a flattening in [0, 1) the second
    argument [(1 - f)^2 * sqrt(x^2 + y^2)] of the latitude's arctangent is
    not negative, the latitude lies in [-90, 90] degrees and the longitude
    in [-180, 180] degrees, both ends included: float64 reaches -180, for
    a point left of the y-axis whose [y] is the negative zero or a
    negative number so small that the angle rounds to [-pi]. *)
Theorem geodetic_coords_closed_range :
  forall x y z f : R,
    0 <= f < 1 ->
    exists lon lat : R,
      transform_earth_fixed_to_geodetic_coords (Fin x, Fin y, Fin z) (Fin f)
      = (Fin lon, Fin lat) /\
      0 <= (1 - f) ^ 2 * sqrt (x ^ 2 + y ^ 2) /\
      -90 <= lat <= 90 /\
      -180 <= lon <= 180.
Proof.
  intros x y z f _.
  assert (Hw : 0 <= (1 - f) ^ 2 * sqrt (x ^ 2 + y ^ 2)).
  { apply Rmult_le_pos; [apply pow2_ge_0 | apply sqrt_pos]. }
  eexists; eexists; split; [apply geodetic_Fin |].
  split; [exact Hw |].
  pose proof PI_RGT_0 as Hpi.
  assert (H90 : Rrad2deg (PI / 2) = 90) by (unfold Rrad2deg; field; lra).
  assert (H90' : Rrad2deg (- (PI / 2)) = -90) by (unfold Rrad2deg; field; lra).
  assert (H180' : Rrad2deg (- PI) = -180) by (unfold Rrad2deg; field; lra).
  pose proof (Ratan2_right_half z _ Hw) as [Hlat1 Hlat2].
  pose proof (Ratan2_bound y x) as [Hlon1 Hlon2].
  apply Rrad2deg_le in Hlat1, Hlat2, Hlon2.
  apply Rrad2deg_lt in Hlon1.
  rewrite Rrad2deg_PI in Hlon2.
  lra.
Qed.

Lemma geodetic_coords_closed_range_witness :
  exists lon lat : R,
    transform_earth_fixed_to_geodetic_coords (Fin 1, Fin 0, Fin 0) (Fin 0)
    = (Fin lon, Fin lat) /\
    0 <= (1 - 0) ^ 2 * sqrt (1 ^ 2 + 0 ^ 2) /\
    -90 <= lat <= 90 /\
    -180 <= lon <= 180.
Proof. apply (geodetic_coords_closed_range 1 0 0 0); lra. Defined.

(** ** A view ray that misses the earth *)

Lemma get_lon_lat_unfold (point : image_point) (attitude : Attitude)
    (orbit : Orbit) (proj_params : ProjectionParameters) :
  get_lon_lat point (attitude, orbit, proj_params)
  = transform_earth_fixed_to_geodetic_coords
      (intersect_with_earth
         (view_vector_of point (attitude, orbit, proj_params))
         (_get_sat_pos orbit) (_get_ellipsoid proj_params))
      (earth_flattening proj_params).
Proof.
  unfold get_lon_lat, view_vector_of.
  destruct (transform_earth_fixed_to_geodetic_coords _ _); reflexivity.
Qed.

Lemma geodetic_NaN (flattening : float64) :
  transform_earth_fixed_to_geodetic_coords (NaN, NaN, NaN) flattening
  = (NaN, NaN).
Proof. reflexivity. Qed.

(** C5: when the discriminant [b^2 - a c] of the intersection quadratic is
    negative, the divisor [a] is not zero, the distance to the
    intersection is not-a-number, so are the three coordinates of the
    intersection and the longitude and latitude derived from it;
    [get_lon_lat] returns the pair (not-a-number, not-a-number) for a pixel
    whose view ray misses the earth, as a value: none of the operations
    involved raises. *)
Theorem missed_earth_is_nan :
  forall ux uy uz px py pz radius f : R,
    quad_disc ux uy uz px py pz radius f < 0 ->
    let view_vector := (Fin ux, Fin uy, Fin uz) in
    let sat_pos := (Fin px, Fin py, Fin pz) in
    let ellipsoid := (Fin radius, Fin f) in
    quad_a ux uy uz f <> 0 /\
    _get_distance_to_intersection view_vector sat_pos ellipsoid = NaN /\
    intersect_with_earth view_vector sat_pos ellipsoid = (NaN, NaN, NaN) /\
    (forall flattening,
        transform_earth_fixed_to_geodetic_coords
          (intersect_with_earth view_vector sat_pos ellipsoid) flattening
        = (NaN, NaN)) /\
    (forall point attitude orbit proj_params,
        view_vector_of point (attitude, orbit, proj_params) = view_vector ->
        _get_sat_pos orbit = sat_pos ->
        _get_ellipsoid proj_params = ellipsoid ->
        get_lon_lat point (attitude, orbit, proj_params) = (NaN, NaN)).
Proof.
  intros ux uy uz px py pz radius f Hd u p e.
  assert (Hdist : _get_distance_to_intersection u p e = NaN).
  { unfold _get_distance_to_intersection; subst u p e.
    rewrite (distances_miss ux uy uz px py pz radius f Hd); reflexivity. }
  assert (Hpoint : intersect_with_earth u p e = (NaN, NaN, NaN)).
  { unfold intersect_with_earth; rewrite Hdist; reflexivity. }
  split; [| repeat split; [exact Hdist | exact Hpoint | |]].
  - unfold quad_disc in Hd.
    pose proof (pow2_ge_0 (quad_b ux uy uz px py pz f)) as Hb.
    intros Ha; rewrite Ha in Hd; lra.
  - intros flattening; rewrite Hpoint; apply geodetic_NaN.
  - intros point attitude orbit proj_params Hu Hp He.
    rewrite get_lon_lat_unfold, Hu, Hp, He, Hpoint.
    apply geodetic_NaN.
Qed.

(** ** A sample pixel *)

Lemma Fin_eq (a b : R) : a = b -> Fin a = Fin b.
Proof. intros ->; reflexivity. Qed.

Lemma vec_eq (a b c a' b' c' : R) :
  a = a' -> b = b' -> c = c' ->
  (Fin a, Fin b, Fin c) = (Fin a', Fin b', Fin c').
Proof. intros -> -> ->; reflexivity. Qed.

(** A vector of length one is its own normalisation. *)
Lemma normalize_unit (a b c : R) :
  a ^ 2 + b ^ 2 + c ^ 2 = 1 ->
  normalize_vector (Fin a, Fin b, Fin c) = (Fin a, Fin b, Fin c).
Proof.
  intros H. unfold normalize_vector, vec_div, vec_map, dot.
  rewrite !fmul_Fin, !fadd_Fin.
  replace (a * a + b * b + c * c) with 1 by (rewrite <- H; ring).
  rewrite fsqrt_Fin by lra. rewrite sqrt_1.
  rewrite !fdiv_Fin by lra.
  apply vec_eq; field.
Qed.

Lemma normalize_to_unit (a b c a' b' c' : R) :
  a' = a -> b' = b -> c' = c -> a ^ 2 + b ^ 2 + c ^ 2 = 1 ->
  normalize_vector (Fin a', Fin b', Fin c') = (Fin a, Fin b, Fin c).
Proof. intros -> -> ->; apply normalize_unit. Qed.

Lemma sample_scan_angles :
  transform_image_coords_to_scanning_angles (0%Z, 0%Z)
    (_get_image_offset unit_projection) (_get_sampling unit_projection)
  = (Fin 0, Fin 0).
Proof.
  unfold transform_image_coords_to_scanning_angles, _get_image_offset,
    _get_sampling, unit_projection, of_Z.
  cbn [line_offset pixel_offset stepping_angle proj_sampling_angle].
  rewrite !fsub_Fin, !fmul_Fin.
  f_equal; apply Fin_eq; simpl; ring.
Qed.

Lemma sample_view_sat :
  transform_scanning_angles_to_satellite_coords (Fin 0, Fin 0) identity_matrix
  = (Fin 1, Fin 0, Fin 0).
Proof.
  unfold transform_scanning_angles_to_satellite_coords,
    _get_transforms_from_scanning_angles_to_satellite_coords,
    identity_matrix, mat_dot, dot, fcos, fsin.
  rewrite cos_0, sin_0.
  rewrite !fneg_Fin, !fmul_Fin, !fadd_Fin, !fmul_Fin, !fadd_Fin.
  apply vec_eq; ring.
Qed.

Lemma sample_unit_z :
  _get_satellite_unit_vector_z (Fin 0, Fin 0) (Fin 0) identity_matrix
  = (Fin 0, Fin 0, Fin 1).
Proof.
  unfold _get_satellite_unit_vector_z, _get_satellite_z_axis_1950,
    _get_transform_from_1950_to_earth_fixed, identity_matrix, mat_dot, dot,
    fcos, fsin.
  rewrite cos_0, sin_0.
  rewrite !fneg_Fin, !fmul_Fin, !fadd_Fin, !fmul_Fin, !fadd_Fin.
  apply normalize_to_unit; ring.
Qed.

Lemma sample_unit_x :
  _get_satellite_unit_vector_x (Fin 0) (angles side_orbit) (Fin 0, Fin 0, Fin 1)
  = (Fin 1, Fin 0, Fin 0).
Proof.
  unfold _get_satellite_unit_vector_x, _get_vector_from_satellite_to_sun,
    side_orbit.
  cbn [angles declination_from_sat_to_sun right_ascension_from_sat_to_sun].
  unfold fcos, fsin. rewrite cos_0, sin_0.
  unfold cross. rewrite !fmul_Fin, !fsub_Fin.
  replace (Fin (0 * 0 - 1 * (1 * 0)), Fin (1 * (1 * 1) - 0 * 0),
           Fin (0 * (1 * 0) - 0 * (1 * 1)))
    with (Fin 0, Fin 1, Fin 0) by (apply vec_eq; ring).
  rewrite (normalize_unit 0 1 0) by ring.
  unfold vec_scale, vec_map, vec_add.
  rewrite !fmul_Fin, !fsub_Fin, !fmul_Fin, !fadd_Fin.
  apply normalize_to_unit; ring.
Qed.

Lemma sample_unit_y :
  _get_satellite_unit_vector_y (Fin 1, Fin 0, Fin 0) (Fin 0, Fin 0, Fin 1)
  = (Fin 0, Fin 1, Fin 0).
Proof.
  unfold _get_satellite_unit_vector_y, cross.
  rewrite !fmul_Fin, !fsub_Fin.
  apply normalize_to_unit; ring.
Qed.

(** The sample pixel of [zero_attitude], [side_orbit] and
    [unit_projection] looks along the x-axis. *)
Lemma sample_view_vector :
  view_vector_of (0%Z, 0%Z) (zero_attitude, side_orbit, unit_projection)
  = (Fin 1, Fin 0, Fin 0).
Proof.
  unfold view_vector_of.
  rewrite sample_scan_angles.
  change (misalignment unit_projection) with identity_matrix.
  rewrite sample_view_sat.
  unfold transform_satellite_to_earth_fixed_coords, _get_satellite_unit_vectors.
  change (_get_spin_angles zero_attitude) with (Fin 0, Fin 0).
  change (greenwich_sidereal_time (angles side_orbit)) with (Fin 0).
  change (nutation_precession side_orbit) with identity_matrix.
  change (angle_between_earth_and_sun zero_attitude) with (Fin 0).
  rewrite sample_unit_z, sample_unit_x, sample_unit_y.
  unfold stack_columns, mat_dot, dot.
  rewrite !fmul_Fin, !fadd_Fin.
  apply vec_eq; ring.
Qed.

Lemma missed_earth_is_nan_witness :
  quad_disc 1 0 0 0 2 0 1 0 < 0 /\
  _get_distance_to_intersection
    (Fin 1, Fin 0, Fin 0) (Fin 0, Fin 2, Fin 0) (Fin 1, Fin 0) = NaN /\
  get_lon_lat (0%Z, 0%Z) (zero_attitude, side_orbit, unit_projection)
  = (NaN, NaN).
Proof.
  assert (Hd : quad_disc 1 0 0 0 2 0 1 0 < 0)
    by (unfold quad_disc, quad_a, quad_b, quad_c, quad_k; lra).
  destruct (missed_earth_is_nan 1 0 0 0 2 0 1 0 Hd)
    as (_ & Hdist & _ & _ & Hpix).
  repeat split; [exact Hd | exact Hdist |].
  apply Hpix; [exact sample_view_vector | reflexivity | reflexivity].
Defined.

(** ** More on the enclosing-index search *)

(** The search returns [i] exactly when interval [i] is the first one that
    encloses the query, and raises exactly when no interval does; the index
    returned is below the last index of the sample times. *)
Theorem find_enclosing_index_first :
  forall (x : float64) (x_sample : list float64),
    (forall i,
        _find_enclosing_index x x_sample = Ok i <->
        encloses x x_sample i /\
        forall j, (j < i)%nat -> ~ encloses x x_sample j) /\
    (forall e,
        _find_enclosing_index x x_sample = Raise e <->
        e = not_enclosed /\ forall j, ~ encloses x x_sample j) /\
    (forall i,
        _find_enclosing_index x x_sample = Ok i ->
        (i + 1 < List.length x_sample)%nat).
Proof.
  intros x x_sample.
  assert (Hok : forall i,
             _find_enclosing_index x x_sample = Ok i ->
             encloses x x_sample i /\
             forall j, (j < i)%nat -> ~ encloses x x_sample j).
  { intros i Hi.
    destruct (find_cases x x_sample) as [(k & Hk & Henc & Hmin) | (Hr & _)].
    - rewrite Hk in Hi; injection Hi as <-; auto.
    - rewrite Hr in Hi; discriminate. }
  repeat split.
  - apply Hok; assumption.
  - apply Hok; assumption.
  - intros [Henc Hmin]; apply find_first; assumption.
  - destruct (find_cases x x_sample) as [(k & Hk & _) | (Hr & _)].
    + rewrite Hk in H; discriminate.
    + rewrite Hr in H; injection H as <-; reflexivity.
  - destruct (find_cases x x_sample) as [(k & Hk & _) | (_ & Hno)].
    + rewrite Hk in H; discriminate.
    + exact Hno.
  - intros [-> Hno]; apply find_none; exact Hno.
  - intros i Hi; apply (encloses_lt x x_sample), Hok, Hi.
Qed.

(** Over strictly increasing sample times at most one interval encloses a
    query. *)
Lemma enclosing_unique (x : R) (xr : list R) (i j : nat) :
  strictly_increasing xr ->
  encloses (Fin x) (map Fin xr) i -> encloses (Fin x) (map Fin xr) j ->
  i = j.
Proof.
  intros Hs Hi Hj.
  apply encloses_Fin in Hi as (ai & bi & Hai & Hbi & Hxi).
  apply encloses_Fin in Hj as (aj & bj & Haj & Hbj & Hxj).
  destruct (Nat.lt_trichotomy i j) as [Hlt | [Heq | Hgt]]; [| exact Heq |].
  - exfalso.
    destruct (Nat.eq_dec (i + 1) j) as [E | N].
    + rewrite E, Haj in Hbi; injection Hbi as <-; lra.
    + pose proof (strictly_increasing_nth xr Hs (i + 1) j bi aj
                    ltac:(lia) Hbi Haj); lra.
  - exfalso.
    destruct (Nat.eq_dec (j + 1) i) as [E | N].
    + rewrite E, Hai in Hbj; injection Hbj as <-; lra.
    + pose proof (strictly_increasing_nth xr Hs (j + 1) i bj ai
                    ltac:(lia) Hbj Hai); lra.
Qed.

Lemma find_sorted (x : R) (xr : list R) (i : nat) :
  strictly_increasing xr ->
  (_find_enclosing_index (Fin x) (map Fin xr) = Ok i <->
   exists lo hi,
     nth_error xr i = Some lo /\ nth_error xr (i + 1) = Some hi /\
     lo <= x < hi).
Proof.
  intros Hs; split.
  - intros Hi.
    destruct (find_cases (Fin x) (map Fin xr))
      as [(k & Hk & Henc & _) | (Hr & _)].
    + rewrite Hk in Hi; injection Hi as <-.
      apply encloses_Fin; exact Henc.
    + rewrite Hr in Hi; discriminate.
  - intros Henc; apply encloses_Fin in Henc.
    apply find_first; [exact Henc |].
    intros j Hj Hej.
    pose proof (enclosing_unique x xr i j Hs Henc Hej); lia.
Qed.

(** Over strictly increasing finite sample times the search returns [i]
    exactly when [x_sample[i] <= x < x_sample[i + 1]]. *)
Theorem find_enclosing_index_sorted :
  forall (x : R) (xr : list R) (i : nat),
    strictly_increasing xr ->
    (_find_enclosing_index (Fin x) (map Fin xr) = Ok i <->
     exists lo hi,
       nth_error xr i = Some lo /\ nth_error xr (i + 1) = Some hi /\
       lo <= x < hi).
Proof. exact find_sorted. Qed.

Lemma find_enclosing_index_sorted_witness :
  _find_enclosing_index (Fin (3 / 2)) (map Fin [0; 1; 2; 3]) = Ok 1%nat.
Proof.
  apply (find_enclosing_index_sorted (3 / 2) [0; 1; 2; 3] 1).
  - unfold strictly_increasing; repeat (constructor; try lra).
  - exists 1, 2; repeat split; lra.
Defined.

(** What the three interpolators return once the search has raised. *)
Lemma not_enclosed_is_nan (x : float64) (x_sample : list float64) :
  (forall j, ~ encloses x x_sample j) ->
  (forall y_sample, interpolate_continuous x x_sample y_sample = Ok NaN) /\
  (forall y_sample, interpolate_angles x x_sample y_sample = Ok NaN) /\
  (forall y_sample first,
      nth_error y_sample 0 = Some first ->
      interpolate_nearest x x_sample y_sample
      = Ok (mat_map (fun _ => NaN) first)).
Proof.
  intros Hno.
  pose proof (find_none x x_sample Hno) as Hfind.
  assert (Hcont : forall y_sample,
             interpolate_continuous x x_sample y_sample = Ok NaN).
  { intros y_sample.
    unfold interpolate_continuous, _interpolate; rewrite Hfind; reflexivity. }
  repeat split.
  - exact Hcont.
  - intros y_sample; unfold interpolate_angles; rewrite Hcont; reflexivity.
  - intros y_sample first Hfirst.
    unfold interpolate_nearest, _interpolate_nearest; rewrite Hfind.
    cbn [bind try_except]. rewrite (getitem_Some _ _ _ Hfirst).
    cbn [bind]. rewrite nan_like. reflexivity.
Qed.

(** A query that is not a finite number (not-a-number or an infinity) is
    enclosed by no interval of finite sample times: the continuous and the
    angular interpolator return not-a-number, the nearest-neighbour one an
    array of not-a-number. *)
Theorem non_finite_query_is_nan :
  forall (x : float64) (xr : list R),
    (forall r, x <> Fin r) ->
    (forall y_sample,
        interpolate_continuous x (map Fin xr) y_sample = Ok NaN) /\
    (forall y_sample,
        interpolate_angles x (map Fin xr) y_sample = Ok NaN) /\
    (forall y_sample first,
        nth_error y_sample 0 = Some first ->
        interpolate_nearest x (map Fin xr) y_sample
        = Ok (mat_map (fun _ => NaN) first)).
Proof.
  intros x xr Hx.
  destruct (not_enclosed_is_nan x (map Fin xr)) as (H1 & H2 & H3).
  - intros j (lo & hi & Hlo & Hhi & Hle & Hlt).
    apply nth_error_map_Fin in Hlo as (a & _ & ->).
    apply nth_error_map_Fin in Hhi as (b & _ & ->).
    destruct x as [| s | r]; cbn in Hle, Hlt.
    + discriminate.
    + destruct s; discriminate.
    + apply (Hx r); reflexivity.
  - auto.
Qed.

Lemma non_finite_query_is_nan_witness :
  interpolate_continuous NaN (map Fin [0; 1]) [Fin 5; Fin 7] = Ok NaN.
Proof.
  apply (non_finite_query_is_nan NaN [0; 1]); intros r; discriminate.
Defined.

(** With fewer than two sample times there is no interval at all: whatever
    the query, the continuous and the angular interpolator return
    not-a-number and the nearest-neighbour one an array of not-a-number. *)
Theorem short_sample_is_nan :
  forall (x : float64) (x_sample : list float64),
    (List.length x_sample <= 1)%nat ->
    _find_enclosing_index x x_sample = Raise not_enclosed /\
    (forall y_sample,
        interpolate_continuous x x_sample y_sample = Ok NaN) /\
    (forall y_sample,
        interpolate_angles x x_sample y_sample = Ok NaN) /\
    (forall y_sample first,
        nth_error y_sample 0 = Some first ->
        interpolate_nearest x x_sample y_sample
        = Ok (mat_map (fun _ => NaN) first)).
Proof.
  intros x x_sample Hlen.
  assert (Hno : forall j, ~ encloses x x_sample j).
  { intros j Hj; pose proof (encloses_lt _ _ _ Hj); lia. }
  destruct (not_enclosed_is_nan x x_sample Hno) as (H1 & H2 & H3).
  split; [apply find_none; exact Hno | auto].
Qed.

Lemma short_sample_is_nan_witness :
  interpolate_continuous (Fin 0) [Fin 0] [Fin 5] = Ok NaN.
Proof.
  apply (short_sample_is_nan (Fin 0) [Fin 0]); cbn; lia.
Defined.

(** ** Values of the interpolators inside the sampled interval *)

(** Between the sample times [x_sample[i] <= x < x_sample[i + 1]] the
    continuous interpolator returns the point of the chord through the two
    neighbouring samples: a value between [y_sample[i]] and
    [y_sample[i + 1]]. *)
Theorem interpolate_continuous_between :
  forall (x : R) (xr yr : list R) (i : nat) (lo hi y_lo y_hi : R),
    strictly_increasing xr ->
    nth_error xr i = Some lo -> nth_error xr (i + 1) = Some hi ->
    nth_error yr i = Some y_lo -> nth_error yr (i + 1) = Some y_hi ->
    lo <= x < hi ->
    let v := y_lo + (y_hi - y_lo) / (hi - lo) * (x - lo) in
    interpolate_continuous (Fin x) (map Fin xr) (map Fin yr) = Ok (Fin v) /\
    Rmin y_lo y_hi <= v <= Rmax y_lo y_hi.
Proof.
  intros x xr yr i lo hi y_lo y_hi Hs Hlo Hhi Hyl Hyh Hx v.
  assert (Hfind : _find_enclosing_index (Fin x) (map Fin xr) = Ok i).
  { apply find_sorted; [exact Hs |]. exists lo, hi; auto. }
  split.
  - unfold interpolate_continuous.
    rewrite (interpolate_at _ _ _ i (Fin lo) (Fin hi) (Fin y_lo) (Fin y_hi)
               Hfind (nth_error_Fin _ _ _ Hlo) (nth_error_Fin _ _ _ Hhi)
               (nth_error_Fin _ _ _ Hyl) (nth_error_Fin _ _ _ Hyh)).
    cbn [try_except].
    rewrite !fsub_Fin, fdiv_Fin, fmul_Fin, fadd_Fin by lra.
    reflexivity.
  - set (w := (x - lo) / (hi - lo)).
    assert (Hw : 0 <= w < 1).
    { unfold w; split.
      - apply Rmult_le_pos; [lra |].
        apply Rlt_le, Rinv_0_lt_compat; lra.
      - apply (Rmult_lt_reg_r (hi - lo)); [lra |].
        unfold Rdiv; rewrite Rmult_assoc, Rinv_l by lra. lra. }
    assert (Hv : v = y_lo + (y_hi - y_lo) * w)
      by (unfold v, w; field; lra).
    rewrite Hv.
    unfold Rmin, Rmax; destruct (Rle_dec y_lo y_hi); nra.
Qed.

Lemma interpolate_continuous_between_witness :
  interpolate_continuous (Fin (1 / 2)) (map Fin [0; 1]) (map Fin [3; 4])
  = Ok (Fin (3 + (4 - 3) / (1 - 0) * (1 / 2 - 0))) /\
  Rmin 3 4 <= 3 + (4 - 3) / (1 - 0) * (1 / 2 - 0) <= Rmax 3 4.
Proof.
  apply (interpolate_continuous_between (1 / 2) [0; 1] [3; 4] 0 0 1 3 4).
  - unfold strictly_increasing; repeat (constructor; try lra).
  - reflexivity.
  - reflexivity.
  - reflexivity.
  - reflexivity.
  - lra.
Defined.

(** Between the sample times [x_sample[i] <= x < x_sample[i + 1]] the
    nearest-neighbour interpolator returns the sample [y_sample[i]] of the
    left end of the interval, also when the right end is the nearer one. *)
Theorem interpolate_nearest_left :
  forall (x : R) (xr : list R) (y_sample : list mat3) (i : nat)
         (lo hi : R) (m : mat3),
    strictly_increasing xr ->
    nth_error xr i = Some lo -> nth_error xr (i + 1) = Some hi ->
    nth_error y_sample i = Some m ->
    lo <= x < hi ->
    interpolate_nearest (Fin x) (map Fin xr) y_sample = Ok m.
Proof.
  intros x xr y_sample i lo hi m Hs Hlo Hhi Hm Hx.
  assert (Hfind : _find_enclosing_index (Fin x) (map Fin xr) = Ok i).
  { apply find_sorted; [exact Hs |]. exists lo, hi; auto. }
  unfold interpolate_nearest, _interpolate_nearest; rewrite Hfind.
  cbn [bind]. rewrite (getitem_Some _ _ _ Hm). reflexivity.
Qed.

Lemma interpolate_nearest_left_witness :
  interpolate_nearest (Fin (9 / 10)) (map Fin [0; 1])
    [identity_matrix; ones_like identity_matrix]
  = Ok identity_matrix.
Proof.
  apply (interpolate_nearest_left (9 / 10) [0; 1] _ 0 0 1).
  - unfold strictly_increasing; repeat (constructor; try lra).
  - reflexivity.
  - reflexivity.
  - reflexivity.
  - lra.
Defined.

(** ** Wrapping of angles *)

Lemma Rmod_small (a b : R) : 0 <= a < b -> Rmod a b = a.
Proof.
  intros [Ha Hab]; unfold Rmod.
  assert (Hq : Zfloor (a / b) = 0%Z).
  { apply Zfloor_eq; simpl; split.
    - apply Rmult_le_pos; [exact Ha |].
      apply Rlt_le, Rinv_0_lt_compat; lra.
    - apply (Rmult_lt_reg_r b); [lra |].
      unfold Rdiv; rewrite Rmult_assoc, Rinv_l by lra. lra. }
  rewrite Hq; simpl; ring.
Qed.

Lemma Rmod_add_multiple (a b : R) (k : Z) :
  b <> 0 -> Rmod (a + IZR k * b) b = Rmod a b.
Proof.
  intros Hb; unfold Rmod.
  replace ((a + IZR k * b) / b) with (a / b + IZR k) by (field; exact Hb).
  rewrite Zfloor_addz, plus_IZR. ring.
Qed.

Lemma cos_add_turns (x : R) (k : Z) : cos (x + IZR k * (2 * PI)) = cos x.
Proof.
  destruct (Z_le_gt_dec 0 k) as [Hk | Hk].
  - rewrite <- (Z2Nat.id k Hk), <- INR_IZR_INZ.
    replace (x + INR (Z.to_nat k) * (2 * PI))
      with (x + 2 * INR (Z.to_nat k) * PI) by ring.
    apply cos_period.
  - assert (Hn : (0 <= - k)%Z) by lia.
    rewrite <- (cos_period (x + IZR k * (2 * PI)) (Z.to_nat (- k))).
    f_equal. rewrite INR_IZR_INZ, (Z2Nat.id _ Hn), opp_IZR. ring.
Qed.

Lemma sin_add_turns (x : R) (k : Z) : sin (x + IZR k * (2 * PI)) = sin x.
Proof.
  destruct (Z_le_gt_dec 0 k) as [Hk | Hk].
  - rewrite <- (Z2Nat.id k Hk), <- INR_IZR_INZ.
    replace (x + INR (Z.to_nat k) * (2 * PI))
      with (x + 2 * INR (Z.to_nat k) * PI) by ring.
    apply sin_period.
  - assert (Hn : (0 <= - k)%Z) by lia.
    rewrite <- (sin_period (x + IZR k * (2 * PI)) (Z.to_nat (- k))).
    f_equal. rewrite INR_IZR_INZ, (Z2Nat.id _ Hn), opp_IZR. ring.
Qed.

(** The wrapped value, on reals. *)
Lemma wrap_range (v : R) :
  - PI <= Rmod (v + PI) (2 * PI) - PI < PI.
Proof.
  assert (Hpos : 0 < 2 * PI) by (pose proof PI_RGT_0; lra).
  pose proof (Rmod_bound (v + PI) (2 * PI) Hpos). lra.
Qed.

(** [_wrap_2pi] maps every finite angle into the closed interval
    [-pi, pi].  The two ends are one angle, and for both of them the lower
    end is returned: [pi] is wrapped to [-pi], and [-pi] stays. *)
Theorem wrap_2pi_closed_range :
  (forall v : R,
      exists w, _wrap_2pi (Fin v) = Fin w /\ - PI <= w <= PI) /\
  _wrap_2pi (Fin PI) = Fin (- PI) /\
  _wrap_2pi (Fin (- PI)) = Fin (- PI).
Proof.
  pose proof PI_RGT_0 as Hpi.
  split; [| split].
  - intros v; eexists; split; [apply wrap_2pi_Fin |].
    pose proof (wrap_range v); lra.
  - rewrite wrap_2pi_Fin. f_equal.
    replace (PI + PI) with (0 + IZR 1 * (2 * PI)) by (simpl; ring).
    rewrite Rmod_add_multiple by lra.
    rewrite Rmod_small by lra. ring.
  - rewrite wrap_2pi_Fin. f_equal.
    replace (- PI + PI) with 0 by ring.
    rewrite Rmod_small by lra. ring.
Qed.

(** [_wrap_2pi] changes an angle by a whole number of turns: angles that
    differ by a multiple of [2 pi] are wrapped to the same value, and the
    wrapped angle has the cosine and the sine of the original. *)
Theorem wrap_2pi_periodic :
  forall v : R,
    (forall k : Z,
        _wrap_2pi (Fin (v + IZR k * (2 * PI))) = _wrap_2pi (Fin v)) /\
    exists (w : R) (k : Z),
      _wrap_2pi (Fin v) = Fin w /\
      w = v + IZR k * (2 * PI) /\ cos w = cos v /\ sin w = sin v.
Proof.
  intros v.
  pose proof PI_RGT_0 as Hpi.
  split.
  - intros k; rewrite !wrap_2pi_Fin. f_equal.
    replace (v + IZR k * (2 * PI) + PI) with (v + PI + IZR k * (2 * PI))
      by ring.
    rewrite Rmod_add_multiple by lra. reflexivity.
  - exists (Rmod (v + PI) (2 * PI) - PI),
      (- Zfloor ((v + PI) / (2 * PI)))%Z.
    assert (Hw : Rmod (v + PI) (2 * PI) - PI
                 = v + IZR (- Zfloor ((v + PI) / (2 * PI))) * (2 * PI))
      by (unfold Rmod; rewrite opp_IZR; ring).
    repeat split.
    + apply wrap_2pi_Fin.
    + exact Hw.
    + rewrite Hw; apply cos_add_turns.
    + rewrite Hw; apply sin_add_turns.
Qed.

(** ** More on the observation time *)

(** The floor of a quotient of integers is the integer quotient. *)
Lemma Zfloor_div (a b : Z) :
  (0 < b)%Z -> Zfloor (IZR a / IZR b) = (a / b)%Z.
Proof.
  intros Hb.
  assert (Hb' : 0 < IZR b) by (apply IZR_lt; exact Hb).
  pose proof (Z.div_mod a b ltac:(lia)) as Hdm.
  pose proof (Z.mod_pos_bound a b Hb) as [Hm0 Hmb].
  apply Zfloor_eq.
  assert (Ha : IZR a = IZR b * IZR (a / b) + IZR (a mod b))
    by (rewrite <- mult_IZR, <- plus_IZR; f_equal; exact Hdm).
  apply IZR_le in Hm0. apply IZR_lt in Hmb.
  split.
  - apply (Rmult_le_reg_r (IZR b)); [exact Hb' |].
    unfold Rdiv; rewrite Rmult_assoc, Rinv_l by lra. lra.
  - apply (Rmult_lt_reg_r (IZR b)); [exact Hb' |].
    unfold Rdiv; rewrite Rmult_assoc, Rinv_l by lra. nra.
Qed.

(** The observation time on finite scanning parameters. *)
Lemma observation_time_Fin (start rate angle : R) (sensors line pixel : Z) :
  0 < rate -> (0 < sensors)%Z ->
  get_observation_time (line, pixel)
    {| start_time_of_scan := Fin start;
       spinning_rate := Fin rate;
       num_sensors := sensors;
       sampling_angle := Fin angle |}
  = Fin (start
         + (IZR (line / sensors)
            + angle * (IZR pixel + 1) / (2 * PI))
           / (1440 * rate)).
Proof.
  intros Hrate Hsens.
  assert (Hn : IZR sensors <> 0) by (apply not_0_IZR; lia).
  assert (Hf : 1440 * rate <> 0) by lra.
  unfold get_observation_time, _get_relative_observation_time, of_Z, fpi.
  cbn [start_time_of_scan spinning_rate num_sensors sampling_angle].
  replace (line + 1 - 1)%Z with line by lia.
  rewrite !fmul_Fin, (fdiv_Fin _ _ Hn).
  cbn [ffloor].
  rewrite (fdiv_Fin _ _ PI2_neq0), fadd_Fin, (fdiv_Fin _ _ Hf), fadd_Fin.
  rewrite plus_IZR, (Zfloor_div _ _ Hsens). reflexivity.
Qed.

(** The lines are observed in groups of [num_sensors]: lines with the same
    integer quotient by [num_sensors] have the same observation time at
    every pixel, and [num_sensors] lines further the observation is one
    spin period, [1 / (1440 * spinning_rate)], later. *)
Theorem observation_time_line_groups :
  forall (start rate angle : R) (sensors : Z),
    0 < rate -> (0 < sensors)%Z ->
    let scan_params :=
      {| start_time_of_scan := Fin start;
         spinning_rate := Fin rate;
         num_sensors := sensors;
         sampling_angle := Fin angle |} in
    (forall line1 line2 pixel : Z,
        (line1 / sensors = line2 / sensors)%Z ->
        get_observation_time (line1, pixel) scan_params
        = get_observation_time (line2, pixel) scan_params) /\
    (forall line pixel : Z,
        exists t : R,
          get_observation_time (line, pixel) scan_params = Fin t /\
          get_observation_time ((line + sensors)%Z, pixel) scan_params
          = Fin (t + 1 / (1440 * rate))).
Proof.
  intros start rate angle sensors Hrate Hsens scan_params; split.
  - intros line1 line2 pixel Hq; unfold scan_params.
    rewrite !observation_time_Fin, Hq by assumption. reflexivity.
  - intros line pixel; unfold scan_params.
    eexists; split; [apply observation_time_Fin; assumption |].
    rewrite observation_time_Fin by assumption. f_equal.
    replace ((line + sensors) / sensors)%Z with (line / sensors + 1)%Z.
    + rewrite plus_IZR. simpl. field.
      pose proof PI_RGT_0; lra.
    + replace (line + sensors)%Z with (line + 1 * sensors)%Z by lia.
      rewrite Z.div_add by lia. reflexivity.
Qed.

Lemma observation_time_line_groups_witness :
  get_observation_time (4%Z, 7%Z)
    {| start_time_of_scan := Fin 50000; spinning_rate := Fin 100;
       num_sensors := 4; sampling_angle := Fin (1 / 10000) |}
  = get_observation_time (7%Z, 7%Z)
      {| start_time_of_scan := Fin 50000; spinning_rate := Fin 100;
         num_sensors := 4; sampling_angle := Fin (1 / 10000) |}.
Proof.
  apply (proj1 (observation_time_line_groups 50000 100 (1 / 10000) 4
                  ltac:(lra) ltac:(lia))).
  reflexivity.
Defined.

(** Along a line the observation time advances by the same step from one
    pixel to the next, [sampling_angle / (2 pi)] of a spin period; for a
    positive sampling angle a later pixel is observed later. *)
Theorem observation_time_pixel_step :
  forall (start rate angle : R) (sensors : Z),
    0 < rate -> (0 < sensors)%Z ->
    let scan_params :=
      {| start_time_of_scan := Fin start;
         spinning_rate := Fin rate;
         num_sensors := sensors;
         sampling_angle := Fin angle |} in
    forall line pixel : Z,
      exists t : R,
        get_observation_time (line, pixel) scan_params = Fin t /\
        get_observation_time (line, (pixel + 1)%Z) scan_params
        = Fin (t + angle / (2 * PI) / (1440 * rate)) /\
        forall pixel' : Z,
          0 < angle -> (pixel < pixel')%Z ->
          exists t' : R,
            get_observation_time (line, pixel') scan_params = Fin t' /\
            t < t'.
Proof.
  intros start rate angle sensors Hrate Hsens scan_params line pixel.
  pose proof PI_RGT_0 as Hpi.
  unfold scan_params.
  eexists; split; [apply observation_time_Fin; assumption |].
  split.
  - rewrite observation_time_Fin by assumption. f_equal.
    rewrite plus_IZR. simpl. field. lra.
  - intros pixel' Hangle Hlt.
    eexists; split; [apply observation_time_Fin; assumption |].
    apply IZR_lt in Hlt.
    apply Rplus_lt_compat_l.
    apply Rmult_lt_compat_r; [apply Rinv_0_lt_compat; lra |].
    apply Rplus_lt_compat_l.
    apply Rmult_lt_compat_r; [apply Rinv_0_lt_compat; lra |].
    apply Rmult_lt_compat_l; lra.
Qed.

Lemma observation_time_pixel_step_witness :
  exists t : R,
    get_observation_time (0%Z, 0%Z)
      {| start_time_of_scan := Fin 50000; spinning_rate := Fin 100;
         num_sensors := 1; sampling_angle := Fin (1 / 10000) |} = Fin t /\
    get_observation_time (0%Z, (0 + 1)%Z)
      {| start_time_of_scan := Fin 50000; spinning_rate := Fin 100;
         num_sensors := 1; sampling_angle := Fin (1 / 10000) |}
    = Fin (t + 1 / 10000 / (2 * PI) / (1440 * 100)) /\
    forall pixel' : Z,
      0 < 1 / 10000 -> (0 < pixel')%Z ->
      exists t' : R,
        get_observation_time (0%Z, pixel')
          {| start_time_of_scan := Fin 50000; spinning_rate := Fin 100;
             num_sensors := 1; sampling_angle := Fin (1 / 10000) |}
        = Fin t' /\ t < t'.
Proof.
  apply (observation_time_pixel_step 50000 100 (1 / 10000) 1); [lra | lia].
Defined.

(** ** Arrays of finite values *)

Lemma dot_vFin (v w : rvec) : dot (vFin v) (vFin w) = Fin (Rdot v w).
Proof. destruct v as [[v0 v1] v2], w as [[w0 w1] w2]; reflexivity. Qed.

Lemma cross_vFin (v w : rvec) :
  cross (vFin v) (vFin w) = vFin (Rcross v w).
Proof. destruct v as [[v0 v1] v2], w as [[w0 w1] w2]; reflexivity. Qed.

Lemma vec_add_vFin (v w : rvec) :
  vec_add (vFin v) (vFin w) = vFin (Rvadd v w).
Proof. destruct v as [[v0 v1] v2], w as [[w0 w1] w2]; reflexivity. Qed.

Lemma scale_vec_vFin (s : R) (v : rvec) :
  scale_vec (Fin s) (vFin v) = vFin (Rscale s v).
Proof. destruct v as [[v0 v1] v2]; reflexivity. Qed.

Lemma vec_scale_vFin (s : R) (v : rvec) :
  vec_scale (vFin v) (Fin s) = vFin (Rscale s v).
Proof.
  destruct v as [[v0 v1] v2]; unfold vec_scale, vec_map, vFin, Rscale.
  rewrite !fmul_Fin, !(Rmult_comm s). reflexivity.
Qed.

Lemma mat_dot_mFin (m : rmat) (v : rvec) :
  mat_dot (mFin m) (vFin v) = vFin (Rmat_vec m v).
Proof.
  destruct m as [[r0 r1] r2]; unfold mat_dot, mFin, Rmat_vec.
  rewrite !dot_vFin. reflexivity.
Qed.

Lemma vFin_inj (v w : rvec) : vFin v = vFin w -> v = w.
Proof.
  destruct v as [[v0 v1] v2], w as [[w0 w1] w2]; cbn.
  intros H; injection H as -> -> ->; reflexivity.
Qed.

Lemma vFin_not_NaN (v : rvec) : vFin v <> (NaN, NaN, NaN).
Proof. destruct v as [[v0 v1] v2]; cbn; discriminate. Qed.

(** ** Algebra of the dot and the cross product *)

Lemma Rdot_comm (v w : rvec) : Rdot v w = Rdot w v.
Proof. destruct v as [[v0 v1] v2], w as [[w0 w1] w2]; cbn; ring. Qed.

Lemma Rdot_pos (v : rvec) : 0 <= Rdot v v.
Proof. destruct v as [[v0 v1] v2]; cbn; nra. Qed.

Lemma Rdot_zero (v : rvec) : Rdot v v = 0 -> v = (0, 0, 0).
Proof.
  destruct v as [[v0 v1] v2]; cbn; intros H.
  assert (v0 = 0) by nra. assert (v1 = 0) by nra. assert (v2 = 0) by nra.
  subst; reflexivity.
Qed.

Lemma Rdot_cross_l (v w : rvec) : Rdot (Rcross v w) v = 0.
Proof. destruct v as [[v0 v1] v2], w as [[w0 w1] w2]; cbn; ring. Qed.

Lemma Rdot_cross_r (v w : rvec) : Rdot (Rcross v w) w = 0.
Proof. destruct v as [[v0 v1] v2], w as [[w0 w1] w2]; cbn; ring. Qed.

(** Lagrange's identity. *)
Lemma Rdot_cross_cross (v w : rvec) :
  Rdot (Rcross v w) (Rcross v w)
  = Rdot v v * Rdot w w - Rdot v w * Rdot v w.
Proof. destruct v as [[v0 v1] v2], w as [[w0 w1] w2]; cbn; ring. Qed.

Lemma Rcross_cross (v w : rvec) :
  Rcross v (Rcross w v)
  = Rvadd (Rscale (Rdot v v) w) (Rscale (- Rdot v w) v).
Proof.
  destruct v as [[v0 v1] v2], w as [[w0 w1] w2]; cbn.
  f_equal; [f_equal |]; ring.
Qed.

Lemma Rdot_scale_l (s : R) (v w : rvec) :
  Rdot (Rscale s v) w = s * Rdot v w.
Proof. destruct v as [[v0 v1] v2], w as [[w0 w1] w2]; cbn; ring. Qed.

Lemma Rdot_add_l (u v w : rvec) :
  Rdot (Rvadd u v) w = Rdot u w + Rdot v w.
Proof.
  destruct u as [[u0 u1] u2], v as [[v0 v1] v2], w as [[w0 w1] w2];
    cbn; ring.
Qed.

(** ** Normalisation *)

Lemma normalize_vFin (v : rvec) :
  v <> (0, 0, 0) ->
  normalize_vector (vFin v) = vFin (Rscale (/ Rnorm v) v) /\
  Rdot (Rscale (/ Rnorm v) v) (Rscale (/ Rnorm v) v) = 1.
Proof.
  intros Hv.
  assert (Hd : 0 < Rdot v v).
  { destruct (Rdot_pos v) as [H | H]; [exact H |].
    symmetry in H; apply Rdot_zero in H; contradiction. }
  assert (Hn : 0 < Rnorm v) by (apply sqrt_lt_R0; exact Hd).
  assert (Hnn : Rnorm v * Rnorm v = Rdot v v)
    by (apply sqrt_sqrt; lra).
  split.
  - unfold normalize_vector. rewrite dot_vFin, fsqrt_Fin by lra.
    fold (Rnorm v).
    destruct v as [[v0 v1] v2]; unfold vec_div, vec_map, vFin, Rscale.
    rewrite !fdiv_Fin by lra.
    unfold Rdiv; rewrite !(Rmult_comm (/ _)). reflexivity.
  - rewrite Rdot_scale_l, Rdot_comm, Rdot_scale_l, <- Hnn.
    field; lra.
Qed.

Lemma normalize_zero :
  normalize_vector (vFin (0, 0, 0)) = (NaN, NaN, NaN).
Proof.
  unfold normalize_vector. rewrite dot_vFin.
  replace (Rdot (0, 0, 0) (0, 0, 0)) with 0 by (cbn; ring).
  rewrite fsqrt_Fin, sqrt_0 by lra.
  cbn. destruct (Req_dec_T 0 0) as [_ | N]; [reflexivity | contradiction].
Qed.

(** A finite result of the normalisation has length one. *)
Lemma normalize_finite (v n : rvec) :
  normalize_vector (vFin v) = vFin n ->
  v <> (0, 0, 0) /\ n = Rscale (/ Rnorm v) v /\ Rdot n n = 1.
Proof.
  intros H.
  assert (Hv : v <> (0, 0, 0)).
  { intros ->. rewrite normalize_zero in H.
    symmetry in H; exact (vFin_not_NaN _ H). }
  destruct (normalize_vFin v Hv) as [Hn Hu].
  rewrite Hn in H; apply vFin_inj in H; subst n; auto.
Qed.

Lemma normalize_of_unit (v : rvec) :
  Rdot v v = 1 -> normalize_vector (vFin v) = vFin v.
Proof.
  intros H; destruct v as [[v0 v1] v2]; apply normalize_unit.
  cbn in H; rewrite <- H; ring.
Qed.

(** [normalize_vector] turns a finite vector other than zero into the
    vector of length one with the same direction, and leaves a vector of
    length one as it is; the zero vector has no direction: its
    normalisation is not-a-number in every component. *)
Theorem normalize_vector_unit :
  (forall v : rvec,
      v <> (0, 0, 0) ->
      exists n : rvec,
        normalize_vector (vFin v) = vFin n /\
        n = Rscale (/ Rnorm v) v /\ 0 < / Rnorm v /\
        Rdot n n = 1 /\
        normalize_vector (vFin n) = vFin n) /\
  normalize_vector (Fin 0, Fin 0, Fin 0) = (NaN, NaN, NaN).
Proof.
  split; [| exact normalize_zero].
  intros v Hv.
  destruct (normalize_vFin v Hv) as [Hn Hu].
  exists (Rscale (/ Rnorm v) v); repeat split;
    [exact Hn | | exact Hu | apply normalize_of_unit; exact Hu].
  apply Rinv_0_lt_compat, sqrt_lt_R0.
  destruct (Rdot_pos v) as [H | H]; [exact H |].
  symmetry in H; apply Rdot_zero in H; contradiction.
Qed.

Lemma normalize_vector_unit_witness :
  exists n : rvec,
    normalize_vector (vFin (3, 0, 4)) = vFin n /\
    n = Rscale (/ Rnorm (3, 0, 4)) (3, 0, 4) /\ 0 < / Rnorm (3, 0, 4) /\
    Rdot n n = 1 /\
    normalize_vector (vFin n) = vFin n.
Proof.
  apply (proj1 normalize_vector_unit (3, 0, 4)).
  intros H; injection H as _ H; lra.
Defined.

(** ** Matrices with orthonormal columns *)

(** A matrix with orthonormal columns keeps dot products. *)
Lemma orthonormal_columns_dot (m : rmat) (v w : rvec) :
  orthonormal_columns m ->
  Rdot (Rmat_vec m v) (Rmat_vec m w) = Rdot v w.
Proof.
  destruct m as [[[[a0 b0] c0] [[a1 b1] c1]] [[a2 b2] c2]].
  destruct v as [[v0 v1] v2], w as [[w0 w1] w2].
  unfold orthonormal_columns, orthonormal; cbn.
  intros (Haa & Hbb & Hcc & Hab & Hac & Hbc).
  replace ((a0 * v0 + b0 * v1 + c0 * v2) * (a0 * w0 + b0 * w1 + c0 * w2)
           + (a1 * v0 + b1 * v1 + c1 * v2) * (a1 * w0 + b1 * w1 + c1 * w2)
           + (a2 * v0 + b2 * v1 + c2 * v2) * (a2 * w0 + b2 * w1 + c2 * w2))
    with (v0 * w0 * (a0 * a0 + a1 * a1 + a2 * a2)
          + v1 * w1 * (b0 * b0 + b1 * b1 + b2 * b2)
          + v2 * w2 * (c0 * c0 + c1 * c1 + c2 * c2)
          + (v0 * w1 + v1 * w0) * (a0 * b0 + a1 * b1 + a2 * b2)
          + (v0 * w2 + v2 * w0) * (a0 * c0 + a1 * c1 + a2 * c2)
          + (v1 * w2 + v2 * w1) * (b0 * c0 + b1 * c1 + b2 * c2))
    by ring.
  rewrite Haa, Hbb, Hcc, Hab, Hac, Hbc. ring.
Qed.

(** The rotation about the z-axis by the angle [g], as
    [_get_transform_from_1950_to_earth_fixed] builds it. *)
Lemma transform_1950_mFin (g : R) :
  _get_transform_from_1950_to_earth_fixed (Fin g)
  = mFin ((cos g, sin g, 0), (- sin g, cos g, 0), (0, 0, 1)).
Proof. reflexivity. Qed.

Lemma rotation_z_orthonormal (c s : R) :
  c * c + s * s = 1 ->
  orthonormal_columns ((c, s, 0), (- s, c, 0), (0, 0, 1)) /\
  orthonormal_columns ((c, - s, 0), (s, c, 0), (0, 0, 1)).
Proof.
  intros H; unfold orthonormal_columns, orthonormal; cbn.
  repeat split; nra.
Qed.

Lemma cos_sin_1 (g : R) : cos g * cos g + sin g * sin g = 1.
Proof. pose proof (sin2_cos2 g) as H; unfold Rsqr in H; lra. Qed.

(** The matrix from the mean-of-1950 frame to the earth-fixed frame is a
    rotation about the z-axis: it keeps the z-component and the dot product
    of any two vectors, hence lengths and angles, and the matrix of the
    opposite sidereal time undoes it. *)
Theorem transform_1950_is_rotation :
  forall (g : R) (v w : rvec),
    exists v' w' : rvec,
      mat_dot (_get_transform_from_1950_to_earth_fixed (Fin g)) (vFin v)
      = vFin v' /\
      mat_dot (_get_transform_from_1950_to_earth_fixed (Fin g)) (vFin w)
      = vFin w' /\
      Rdot v' w' = Rdot v w /\
      snd v' = snd v /\
      mat_dot (_get_transform_from_1950_to_earth_fixed (Fin (- g))) (vFin v')
      = vFin v.
Proof.
  intros g v w.
  rewrite !transform_1950_mFin, !mat_dot_mFin.
  eexists; eexists; repeat split.
  - apply orthonormal_columns_dot.
    apply (proj1 (rotation_z_orthonormal _ _ (cos_sin_1 g))).
  - destruct v as [[v0 v1] v2]; cbn; ring.
  - rewrite mat_dot_mFin, cos_neg, sin_neg.
    pose proof (cos_sin_1 g) as H.
    destruct v as [[v0 v1] v2]; cbn.
    f_equal; [f_equal |]; f_equal.
    + transitivity ((cos g * cos g + sin g * sin g) * v0);
        [ring | rewrite H; ring].
    + transitivity ((cos g * cos g + sin g * sin g) * v1);
        [ring | rewrite H; ring].
    + ring.
Qed.

(** ** Direction vectors *)

Lemma z_axis_1950_vFin (alpha delta : R) :
  _get_satellite_z_axis_1950 (Fin alpha, Fin delta)
  = vFin (sin delta, - cos delta * sin alpha, cos delta * cos alpha).
Proof. reflexivity. Qed.

Lemma sun_vector_vFin (gst dec ra : R) :
  _get_vector_from_satellite_to_sun
    {| greenwich_sidereal_time := Fin gst;
       declination_from_sat_to_sun := Fin dec;
       right_ascension_from_sat_to_sun := Fin ra |}
  = vFin (cos dec * cos ra, cos dec * sin ra, sin dec).
Proof. reflexivity. Qed.

(** The spin axis in mean-of-1950 coordinates and the direction from the
    satellite to the sun are vectors of length one, whatever the (finite)
    angles they are built from. *)
Theorem direction_vectors_unit :
  (forall alpha delta : R,
      exists v : rvec,
        _get_satellite_z_axis_1950 (Fin alpha, Fin delta) = vFin v /\
        Rdot v v = 1) /\
  (forall gst dec ra : R,
      exists v : rvec,
        _get_vector_from_satellite_to_sun
          {| greenwich_sidereal_time := Fin gst;
             declination_from_sat_to_sun := Fin dec;
             right_ascension_from_sat_to_sun := Fin ra |} = vFin v /\
        Rdot v v = 1).
Proof.
  split.
  - intros alpha delta; eexists; split; [apply z_axis_1950_vFin |].
    pose proof (cos_sin_1 alpha); pose proof (cos_sin_1 delta).
    cbn; nra.
  - intros gst dec ra; eexists; split; [apply sun_vector_vFin |].
    pose proof (cos_sin_1 ra); pose proof (cos_sin_1 dec).
    cbn; nra.
Qed.

(** ** The view vector in satellite coordinates *)

Lemma scanning_transforms_mFin (x y : R) :
  _get_transforms_from_scanning_angles_to_satellite_coords (Fin x, Fin y)
  = (mFin ((cos x, - sin x, 0), (sin x, cos x, 0), (0, 0, 1)),
     vFin (cos y, 0, sin y)).
Proof. reflexivity. Qed.

Lemma view_vector_sat_vFin (x y : R) (m : rmat) :
  transform_scanning_angles_to_satellite_coords (Fin x, Fin y) (mFin m)
  = vFin (Rmat_vec ((cos x, - sin x, 0), (sin x, cos x, 0), (0, 0, 1))
            (Rmat_vec m (cos y, 0, sin y))).
Proof.
  unfold transform_scanning_angles_to_satellite_coords.
  rewrite scanning_transforms_mFin, !mat_dot_mFin. reflexivity.
Qed.

(** For finite scanning angles [(x, y)] and a misalignment matrix with
    orthonormal columns the view vector in satellite coordinates has length
    one; without misalignment (the identity matrix) it is
    [(cos x cos y, sin x cos y, sin y)]. *)
Theorem view_vector_sat_unit :
  (forall (x y : R) (m : rmat),
      orthonormal_columns m ->
      exists v : rvec,
        transform_scanning_angles_to_satellite_coords
          (Fin x, Fin y) (mFin m) = vFin v /\
        Rdot v v = 1) /\
  (forall x y : R,
      transform_scanning_angles_to_satellite_coords
        (Fin x, Fin y) identity_matrix
      = vFin (cos x * cos y, sin x * cos y, sin y)).
Proof.
  split.
  - intros x y m Hm; eexists; split; [apply view_vector_sat_vFin |].
    rewrite (orthonormal_columns_dot _ _ _
               (proj2 (rotation_z_orthonormal _ _ (cos_sin_1 x)))).
    rewrite (orthonormal_columns_dot _ _ _ Hm).
    pose proof (cos_sin_1 y); cbn; nra.
  - intros x y.
    change identity_matrix with (mFin ((1, 0, 0), (0, 1, 0), (0, 0, 1))).
    rewrite view_vector_sat_vFin. cbn.
    f_equal; [f_equal |]; f_equal; ring.
Qed.

Lemma view_vector_sat_unit_witness :
  exists v : rvec,
    transform_scanning_angles_to_satellite_coords
      (Fin 0, Fin 0) (mFin ((0, 1, 0), (1, 0, 0), (0, 0, 1))) = vFin v /\
    Rdot v v = 1.
Proof.
  apply (proj1 view_vector_sat_unit 0 0 ((0, 1, 0), (1, 0, 0), (0, 0, 1))).
  unfold orthonormal_columns, orthonormal; cbn.
  repeat split; ring.
Defined.

(** ** The satellite's unit vectors *)

Lemma stack_columns_vFin (a b c : rvec) :
  stack_columns (vFin a) (vFin b) (vFin c) = mFin (Rstack_columns a b c).
Proof.
  destruct a as [[a0 a1] a2], b as [[b0 b1] b2], c as [[c0 c1] c2].
  reflexivity.
Qed.

Lemma Rcolumns_stack (a b c : rvec) :
  Rcolumns (Rstack_columns a b c) = (a, b, c).
Proof.
  destruct a as [[a0 a1] a2], b as [[b0 b1] b2], c as [[c0 c1] c2].
  reflexivity.
Qed.

Lemma Rdot_lincomb (s c : R) (a b w : rvec) :
  Rdot (Rvadd (Rscale s a) (Rscale c b)) w = s * Rdot a w + c * Rdot b w.
Proof. rewrite Rdot_add_l, !Rdot_scale_l; reflexivity. Qed.

Section UnitVectors.

Variables (z s : rvec) (beta : R).
Hypothesis Hz : Rdot z z = 1.
Hypothesis Hc : Rcross z s <> (0, 0, 0).

Local Abbreviation n := (Rscale (/ Rnorm (Rcross z s)) (Rcross z s)).
Local Abbreviation x := (Runit_vector_x beta s z).
Local Abbreviation y := (Runit_vector_y (Runit_vector_x beta s z) z).

Lemma basis_n : Rdot n n = 1 /\ Rdot n z = 0.
Proof.
  split.
  - apply (proj2 (normalize_vFin _ Hc)).
  - rewrite Rdot_scale_l, Rdot_cross_l; ring.
Qed.

Lemma basis_x : Rdot x x = 1 /\ Rdot x z = 0.
Proof.
  destruct basis_n as [Hnn Hnz].
  assert (Hmm : Rdot (Rcross n z) (Rcross n z) = 1)
    by (rewrite Rdot_cross_cross, Hnn, Hz, Hnz; ring).
  assert (Hmn : Rdot (Rcross n z) n = 0) by apply Rdot_cross_l.
  assert (Hmz : Rdot (Rcross n z) z = 0) by apply Rdot_cross_r.
  pose proof (cos_sin_1 beta) as Hb.
  split.
  - unfold Runit_vector_x; cbv zeta.
    rewrite Rdot_lincomb, !(Rdot_comm _ (Rvadd _ _)), !Rdot_lincomb.
    rewrite Hnn, Hmm, Hmn, (Rdot_comm n (Rcross n z)), Hmn. nra.
  - unfold Runit_vector_x; cbv zeta.
    rewrite Rdot_lincomb, Hnz, Hmz; ring.
Qed.

Lemma basis_orthonormal : orthonormal x y z /\ Rcross x y = z.
Proof.
  destruct basis_x as [Hxx Hxz].
  assert (Hzx : Rdot z x = 0) by (rewrite Rdot_comm; exact Hxz).
  assert (Hyy : Rdot y y = 1)
    by (unfold Runit_vector_y;
        rewrite Rdot_cross_cross, Hxx, Hz, Hzx; ring).
  split.
  - unfold orthonormal; repeat split;
      [exact Hxx | exact Hyy | exact Hz | | exact Hxz |].
    + unfold Runit_vector_y; rewrite Rdot_comm; apply Rdot_cross_r.
    + unfold Runit_vector_y; apply Rdot_cross_l.
  - unfold Runit_vector_y; rewrite Rcross_cross, Hxx, Hxz.
    destruct z as [[z0 z1] z2], (Runit_vector_x beta s (z0, z1, z2))
      as [[x0 x1] x2]; cbn.
    f_equal; [f_equal |]; ring.
Qed.

(** What the code computes. *)
Lemma unit_vector_x_vFin (dec ra gst : R) :
  s = Rsun_vector dec ra ->
  _get_satellite_unit_vector_x (Fin beta)
    {| greenwich_sidereal_time := Fin gst;
       declination_from_sat_to_sun := Fin dec;
       right_ascension_from_sat_to_sun := Fin ra |} (vFin z)
  = vFin x.
Proof.
  intros Hs.
  unfold _get_satellite_unit_vector_x.
  rewrite sun_vector_vFin. fold (Rsun_vector dec ra). rewrite <- Hs.
  rewrite cross_vFin, (proj1 (normalize_vFin _ Hc)).
  change (fsin (Fin beta)) with (Fin (sin beta)).
  change (fcos (Fin beta)) with (Fin (cos beta)).
  rewrite cross_vFin, !vec_scale_vFin, vec_add_vFin.
  apply (normalize_of_unit x), basis_x.
Qed.

Lemma unit_vector_y_vFin :
  _get_satellite_unit_vector_y (vFin x) (vFin z) = vFin y.
Proof.
  unfold _get_satellite_unit_vector_y.
  rewrite cross_vFin.
  apply (normalize_of_unit y).
  destruct basis_orthonormal as [(_ & Hyy & _) _]; exact Hyy.
Qed.

End UnitVectors.

Lemma unit_vector_z_vFin (alpha delta gst : R) (m : rmat) :
  _get_satellite_unit_vector_z (Fin alpha, Fin delta) (Fin gst) (mFin m)
  = normalize_vector
      (vFin (Rmat_vec ((cos gst, sin gst, 0), (- sin gst, cos gst, 0),
                       (0, 0, 1))
               (Rmat_vec m (sin delta, - cos delta * sin alpha,
                            cos delta * cos alpha)))).
Proof.
  unfold _get_satellite_unit_vector_z.
  rewrite z_axis_1950_vFin, transform_1950_mFin, !mat_dot_mFin.
  reflexivity.
Qed.

Lemma unit_vectors_unfold (gst dec ra : R)
    (pos : SatellitePositionEarthFixed) (nutation : mat3)
    (earth_sun_angle : float64) (spin_angles : float64 * float64) :
  _get_satellite_unit_vectors (orbit_of gst dec ra pos nutation)
    earth_sun_angle spin_angles
  = let unit_z :=
      _get_satellite_unit_vector_z spin_angles (Fin gst) nutation in
    let unit_x :=
      _get_satellite_unit_vector_x earth_sun_angle
        {| greenwich_sidereal_time := Fin gst;
           declination_from_sat_to_sun := Fin dec;
           right_ascension_from_sat_to_sun := Fin ra |} unit_z in
    stack_columns unit_x (_get_satellite_unit_vector_y unit_x unit_z) unit_z.
Proof. reflexivity. Qed.

(** When the spin axis, turned into the earth-fixed frame, is a finite
    vector [z] that is not parallel to the direction of the sun, the three
    unit vectors of the satellite form a right-handed orthonormal basis
    with [z] as its third vector, and the transformation from satellite to
    earth-fixed coordinates keeps the length of every finite vector. *)
Theorem satellite_unit_vectors_orthonormal :
  forall (alpha delta beta gst dec ra : R)
         (pos : SatellitePositionEarthFixed) (nutation : rmat) (z : rvec),
    let orbit := orbit_of gst dec ra pos (mFin nutation) in
    let spin_angles := (Fin alpha, Fin delta) in
    _get_satellite_unit_vector_z spin_angles (Fin gst) (mFin nutation)
    = vFin z ->
    Rcross z (Rsun_vector dec ra) <> (0, 0, 0) ->
    let x := Runit_vector_x beta (Rsun_vector dec ra) z in
    let y := Runit_vector_y x z in
    _get_satellite_unit_vectors orbit (Fin beta) spin_angles
    = mFin (Rstack_columns x y z) /\
    orthonormal x y z /\
    Rcross x y = z /\
    forall p : rvec,
      exists q : rvec,
        transform_satellite_to_earth_fixed_coords
          (vFin p) orbit (Fin beta) spin_angles = vFin q /\
        Rdot q q = Rdot p p.
Proof.
  intros alpha delta beta gst dec ra pos nutation z orbit spin_angles
    Hunit Hc x y.
  assert (Hz : Rdot z z = 1).
  { unfold spin_angles in Hunit; rewrite unit_vector_z_vFin in Hunit.
    apply normalize_finite in Hunit; tauto. }
  destruct (basis_orthonormal z (Rsun_vector dec ra) beta Hz Hc)
    as [Horth Hright].
  assert (Hmat : _get_satellite_unit_vectors orbit (Fin beta) spin_angles
                 = mFin (Rstack_columns x y z)).
  { unfold orbit; rewrite unit_vectors_unfold; cbv zeta.
    rewrite Hunit.
    rewrite (unit_vector_x_vFin z (Rsun_vector dec ra) beta Hz Hc dec ra gst
               eq_refl).
    rewrite (unit_vector_y_vFin z (Rsun_vector dec ra) beta Hz Hc).
    apply stack_columns_vFin. }
  repeat split; try apply Horth; [exact Hmat | exact Hright |].
  intros p; eexists; split.
  - unfold transform_satellite_to_earth_fixed_coords.
    rewrite Hmat; apply mat_dot_mFin.
  - apply orthonormal_columns_dot.
    unfold orthonormal_columns; rewrite Rcolumns_stack; exact Horth.
Qed.

Lemma satellite_unit_vectors_orthonormal_witness :
  orthonormal
    (Runit_vector_x 0 (Rsun_vector 0 0) (0, 0, 1))
    (Runit_vector_y (Runit_vector_x 0 (Rsun_vector 0 0) (0, 0, 1)) (0, 0, 1))
    (0, 0, 1).
Proof.
  apply (satellite_unit_vectors_orthonormal 0 0 0 0 0 0
           (sat_position side_orbit) ((1, 0, 0), (0, 1, 0), (0, 0, 1))
           (0, 0, 1)).
  - exact sample_unit_z.
  - unfold Rsun_vector; rewrite cos_0, sin_0; cbn.
    intros H; injection H as _ H _; lra.
Defined.

(** ** More on the intersection with the earth *)

Section Intersection.

Variables ux uy uz px py pz radius f : R.

Local Abbreviation a := (quad_a ux uy uz f).
Local Abbreviation b := (quad_b ux uy uz px py pz f).
Local Abbreviation c := (quad_c px py pz radius f).
Local Abbreviation disc := (quad_disc ux uy uz px py pz radius f).
Local Abbreviation root1 := (quad_root1 ux uy uz px py pz radius f).
Local Abbreviation root2 := (quad_root2 ux uy uz px py pz radius f).

Hypothesis Hf : f < 1.
Hypothesis Hu : ux <> 0 \/ uy <> 0 \/ uz <> 0.
Hypothesis Hd : 0 <= disc.

(** The smaller root is the one with the square root subtracted. *)
Lemma chosen_root : Rmin root1 root2 = root2.
Proof.
  pose proof (quad_a_pos ux uy uz f Hf Hu) as Ha.
  pose proof (sqrt_pos disc) as Hs.
  apply Rmin_right.
  unfold quad_root1, quad_root2, Rdiv.
  apply Rmult_le_compat_r; [apply Rlt_le, Rinv_0_lt_compat; exact Ha | lra].
Qed.

Lemma root2_is_root : a * root2 ^ 2 + 2 * b * root2 + c = 0.
Proof.
  pose proof (quad_a_pos ux uy uz f Hf Hu) as Ha.
  assert (Hs : - sqrt disc * - sqrt disc = disc)
    by (rewrite Rmult_opp_opp; apply sqrt_sqrt; exact Hd).
  apply (quad_root_is_root ux uy uz px py pz radius f (- sqrt disc));
    [lra | exact Hs].
Qed.

(** The distance chosen and the point of intersection. *)
Lemma intersection_Fin :
  _get_distance_to_intersection
    (Fin ux, Fin uy, Fin uz) (Fin px, Fin py, Fin pz) (Fin radius, Fin f)
  = Fin root2 /\
  intersect_with_earth
    (Fin ux, Fin uy, Fin uz) (Fin px, Fin py, Fin pz) (Fin radius, Fin f)
  = vFin (px + root2 * ux, py + root2 * uy, pz + root2 * uz).
Proof.
  assert (Ha : a <> 0)
    by (pose proof (quad_a_pos ux uy uz f Hf Hu); lra).
  assert (Hdist : _get_distance_to_intersection
                    (Fin ux, Fin uy, Fin uz) (Fin px, Fin py, Fin pz)
                    (Fin radius, Fin f) = Fin root2).
  { unfold _get_distance_to_intersection.
    rewrite (distances_Fin ux uy uz px py pz radius f Ha Hd).
    rewrite fmin_Fin, chosen_root. reflexivity. }
  split; [exact Hdist |].
  unfold intersect_with_earth; rewrite Hdist; reflexivity.
Qed.

(** The quadratic is the equation of the ellipsoid along the ray. *)
Lemma quadratic_is_ellipsoid (t : R) :
  quad_k f * ((px + t * ux) ^ 2 + (py + t * uy) ^ 2 - radius ^ 2)
  + (pz + t * uz) ^ 2
  = a * t ^ 2 + 2 * b * t + c.
Proof. unfold quad_a, quad_b, quad_c; ring. Qed.

(** With the satellite outside the ellipsoid the two roots have the sign
    of [-b]. *)
Lemma root2_sign :
  0 < c -> (b < 0 -> 0 < root2 <= root1) /\ (0 < b -> root2 < 0) /\ b <> 0.
Proof.
  intros Hc.
  pose proof (quad_a_pos ux uy uz f Hf Hu) as Ha.
  pose proof (sqrt_pos disc) as Hs.
  pose proof (sqrt_sqrt disc Hd) as Hss.
  assert (Hlt : sqrt disc * sqrt disc < b * b).
  { rewrite Hss; unfold quad_disc. nra. }
  assert (Hinv : 0 < / a) by (apply Rinv_0_lt_compat; exact Ha).
  split; [| split].
  - intros Hb; split.
    + unfold quad_root2, Rdiv.
      apply Rmult_lt_0_compat; [nra | exact Hinv].
    + rewrite <- chosen_root at 1. apply Rmin_l.
  - intros Hb. unfold quad_root2, Rdiv.
    assert (- b - sqrt disc < 0) by nra.
    nra.
  - intros Hb; rewrite Hb in Hlt. nra.
Qed.

End Intersection.

(** The point [intersect_with_earth] returns lies on the ellipsoid with
    the equatorial radius [R] and the polar radius [R (1 - f)]:
    [(x^2 + y^2) / R^2 + z^2 / (R (1 - f))^2 = 1]. *)
Theorem intersection_on_ellipsoid :
  forall ux uy uz px py pz radius f : R,
    0 < radius -> 0 <= f < 1 ->
    ux <> 0 \/ uy <> 0 \/ uz <> 0 ->
    0 <= quad_disc ux uy uz px py pz radius f ->
    exists x y z : R,
      intersect_with_earth
        (Fin ux, Fin uy, Fin uz) (Fin px, Fin py, Fin pz) (Fin radius, Fin f)
      = (Fin x, Fin y, Fin z) /\
      (x ^ 2 + y ^ 2) / radius ^ 2 + z ^ 2 / (radius * (1 - f)) ^ 2 = 1.
Proof.
  intros ux uy uz px py pz radius f Hr [_ Hf] Hu Hd.
  destruct (intersection_Fin ux uy uz px py pz radius f Hf Hu Hd)
    as [_ Hpoint].
  do 3 eexists; split; [exact Hpoint |].
  pose proof (root2_is_root ux uy uz px py pz radius f Hf Hu Hd) as Hroot.
  rewrite <- quadratic_is_ellipsoid in Hroot.
  set (t := quad_root2 ux uy uz px py pz radius f) in *.
  unfold quad_k in Hroot.
  set (x := px + t * ux) in *. set (y := py + t * uy) in *.
  set (z := pz + t * uz) in *.
  assert (Hz : z ^ 2 = (1 - f) ^ 2 * (radius ^ 2 - (x ^ 2 + y ^ 2))) by lra.
  rewrite Hz. field. split; lra.
Qed.

Lemma intersection_on_ellipsoid_witness :
  exists x y z : R,
    intersect_with_earth
      (Fin 0, Fin 0, Fin (-1)) (Fin 0, Fin 0, Fin 2) (Fin 1, Fin (1 / 2))
    = (Fin x, Fin y, Fin z) /\
    (x ^ 2 + y ^ 2) / 1 ^ 2 + z ^ 2 / (1 * (1 - 1 / 2)) ^ 2 = 1.
Proof.
  apply (intersection_on_ellipsoid 0 0 (-1) 0 0 2 1 (1 / 2)).
  - lra.
  - lra.
  - right; right; lra.
  - unfold quad_disc, quad_a, quad_b, quad_c, quad_k; lra.
Defined.

(** With the satellite outside the ellipsoid ([c > 0]) and a line of sight
    that meets it, [b] is not zero and decides the side: for [b < 0] the
    earth is ahead, both distances are positive and the smaller is chosen;
    for [b > 0] the earth is behind, and the distance chosen is negative:
    the code returns a point behind the satellite instead of
    not-a-number. *)
Theorem intersection_ahead_or_behind :
  forall ux uy uz px py pz radius f : R,
    0 <= f < 1 ->
    ux <> 0 \/ uy <> 0 \/ uz <> 0 ->
    0 <= quad_disc ux uy uz px py pz radius f ->
    0 < quad_c px py pz radius f ->
    exists t : R,
      _get_distance_to_intersection
        (Fin ux, Fin uy, Fin uz) (Fin px, Fin py, Fin pz) (Fin radius, Fin f)
      = Fin t /\
      quad_b ux uy uz px py pz f <> 0 /\
      (quad_b ux uy uz px py pz f < 0 ->
       0 < t <= quad_root1 ux uy uz px py pz radius f) /\
      (0 < quad_b ux uy uz px py pz f -> t < 0).
Proof.
  intros ux uy uz px py pz radius f [_ Hf] Hu Hd Hc.
  destruct (intersection_Fin ux uy uz px py pz radius f Hf Hu Hd)
    as [Hdist _].
  destruct (root2_sign ux uy uz px py pz radius f Hf Hu Hd Hc)
    as (Hneg & Hpos & Hb).
  eexists; split; [exact Hdist |]. auto.
Qed.

Lemma intersection_ahead_or_behind_witness :
  exists t : R,
    _get_distance_to_intersection
      (Fin 0, Fin 0, Fin 1) (Fin 0, Fin 0, Fin 2) (Fin 1, Fin 0)
    = Fin t /\
    quad_b 0 0 1 0 0 2 0 <> 0 /\
    (quad_b 0 0 1 0 0 2 0 < 0 -> 0 < t <= quad_root1 0 0 1 0 0 2 1 0) /\
    (0 < quad_b 0 0 1 0 0 2 0 -> t < 0).
Proof.
  apply (intersection_ahead_or_behind 0 0 1 0 0 2 1 0).
  - lra.
  - right; right; lra.
  - unfold quad_disc, quad_a, quad_b, quad_c, quad_k; lra.
  - unfold quad_c, quad_k; lra.
Defined.

(** ** More on geodetic coordinates *)

(** The arctangent of two arguments depends on the direction of the point
    only. *)
Lemma Ratan2_scale (l y x : R) :
  0 < l -> Ratan2 (l * y) (l * x) = Ratan2 y x.
Proof.
  intros Hl; unfold Ratan2.
  assert (Hq : x <> 0 -> l * y / (l * x) = y / x) by (intros; field; lra).
  destruct (Rlt_dec 0 x) as [Hx | Hx].
  - destruct (Rlt_dec 0 (l * x)) as [_ | N]; [| exfalso; nra].
    rewrite Hq by lra; reflexivity.
  - destruct (Rlt_dec 0 (l * x)) as [P | _]; [exfalso; nra |].
    destruct (Rlt_dec x 0) as [Hx' | Hx'].
    + destruct (Rlt_dec (l * x) 0) as [_ | N]; [| exfalso; nra].
      rewrite Hq by lra.
      destruct (Rle_dec 0 y), (Rle_dec 0 (l * y));
        try reflexivity; exfalso; nra.
    + destruct (Rlt_dec (l * x) 0) as [P | _]; [exfalso; nra |].
      destruct (Rlt_dec 0 y), (Rlt_dec 0 (l * y));
        try reflexivity; try (exfalso; nra).
      destruct (Rlt_dec y 0), (Rlt_dec (l * y) 0);
        try reflexivity; exfalso; nra.
Qed.

Lemma sqrt_scale (l x y : R) :
  0 < l -> sqrt ((l * x) ^ 2 + (l * y) ^ 2) = l * sqrt (x ^ 2 + y ^ 2).
Proof.
  intros Hl.
  replace ((l * x) ^ 2 + (l * y) ^ 2) with (l * l * (x ^ 2 + y ^ 2)) by ring.
  rewrite sqrt_mult by nra.
  rewrite sqrt_square by lra. reflexivity.
Qed.

Lemma geodetic_scale (l x y z f : R) :
  0 < l ->
  transform_earth_fixed_to_geodetic_coords
    (Fin (l * x), Fin (l * y), Fin (l * z)) (Fin f)
  = transform_earth_fixed_to_geodetic_coords (Fin x, Fin y, Fin z) (Fin f).
Proof.
  intros Hl. rewrite !geodetic_Fin, sqrt_scale by exact Hl.
  rewrite Ratan2_scale by exact Hl.
  replace ((1 - f) ^ 2 * (l * sqrt (x ^ 2 + y ^ 2)))
    with (l * ((1 - f) ^ 2 * sqrt (x ^ 2 + y ^ 2))) by ring.
  rewrite Ratan2_scale by exact Hl. reflexivity.
Qed.

(** Longitude and latitude depend on the direction of the earth-fixed
    point only: scaling the point by a positive factor does not change
    them. *)
Theorem geodetic_coords_of_direction :
  forall l x y z f : R,
    0 < l ->
    transform_earth_fixed_to_geodetic_coords
      (Fin (l * x), Fin (l * y), Fin (l * z)) (Fin f)
    = transform_earth_fixed_to_geodetic_coords (Fin x, Fin y, Fin z) (Fin f).
Proof. exact geodetic_scale. Qed.

Lemma geodetic_coords_of_direction_witness :
  transform_earth_fixed_to_geodetic_coords
    (Fin (2 * 1), Fin (2 * 1), Fin (2 * 0)) (Fin 0)
  = transform_earth_fixed_to_geodetic_coords (Fin 1, Fin 1, Fin 0) (Fin 0).
Proof. apply (geodetic_coords_of_direction 2 1 1 0 0); lra. Defined.

(** On the axis of the earth the longitude is 0 and the latitude 90 or -90
    degrees (0 at the centre); off the axis the latitude has the sign of
    [z] and stays strictly between -90 and 90 degrees; on the negative
    x-axis the longitude is 180 degrees, not -180. *)
Theorem geodetic_coords_edges :
  forall f : R,
    0 <= f < 1 ->
    (forall z : R,
        0 < z ->
        transform_earth_fixed_to_geodetic_coords (Fin 0, Fin 0, Fin z) (Fin f)
        = (Fin 0, Fin 90) /\
        transform_earth_fixed_to_geodetic_coords
          (Fin 0, Fin 0, Fin (- z)) (Fin f)
        = (Fin 0, Fin (-90))) /\
    transform_earth_fixed_to_geodetic_coords (Fin 0, Fin 0, Fin 0) (Fin f)
    = (Fin 0, Fin 0) /\
    (forall x y z : R,
        x <> 0 \/ y <> 0 ->
        exists lon lat : R,
          transform_earth_fixed_to_geodetic_coords
            (Fin x, Fin y, Fin z) (Fin f) = (Fin lon, Fin lat) /\
          -90 < lat < 90 /\
          (0 < z -> 0 < lat) /\ (z < 0 -> lat < 0) /\ (z = 0 -> lat = 0)) /\
    (forall x z : R,
        x < 0 ->
        exists lat : R,
          transform_earth_fixed_to_geodetic_coords
            (Fin x, Fin 0, Fin z) (Fin f) = (Fin 180, Fin lat)).
Proof.
  intros f [Hf0 Hf1].
  pose proof PI_RGT_0 as Hpi.
  assert (H00 : sqrt (0 ^ 2 + 0 ^ 2) = 0)
    by (replace (0 ^ 2 + 0 ^ 2) with 0 by ring; apply sqrt_0).
  assert (Hlon0 : Rrad2deg (Ratan2 0 0) = 0).
  { unfold Ratan2, Rrad2deg.
    destruct (Rlt_dec 0 0); [lra |]. ring. }
  assert (Hax : (1 - f) ^ 2 * sqrt (0 ^ 2 + 0 ^ 2) = 0)
    by (rewrite H00; ring).
  split; [| split; [| split]].
  - intros z Hz; split; rewrite geodetic_Fin, Hlon0, Hax;
      f_equal; f_equal; unfold Ratan2, Rrad2deg.
    + destruct (Rlt_dec 0 0); [lra |].
      destruct (Rlt_dec 0 z); [| lra]. field; lra.
    + destruct (Rlt_dec 0 0); [lra |].
      destruct (Rlt_dec 0 (- z)); [lra |].
      destruct (Rlt_dec (- z) 0); [| lra]. field; lra.
  - rewrite geodetic_Fin, Hlon0, Hax, Hlon0. reflexivity.
  - intros x y z Hxy.
    assert (Hw : 0 < (1 - f) ^ 2 * sqrt (x ^ 2 + y ^ 2)).
    { apply Rmult_lt_0_compat; [nra |].
      apply sqrt_lt_R0.
      pose proof (pow2_ge_0 x); pose proof (pow2_ge_0 y).
      destruct Hxy as [Hn | Hn].
      - assert (0 < x ^ 2) by nra. lra.
      - assert (0 < y ^ 2) by nra. lra. }
    set (w := (1 - f) ^ 2 * sqrt (x ^ 2 + y ^ 2)) in *.
    do 2 eexists; split; [apply geodetic_Fin |]. fold w.
    assert (Hat : Ratan2 z w = atan (z / w)).
    { unfold Ratan2; destruct (Rlt_dec 0 w); [reflexivity | lra]. }
    rewrite Hat.
    pose proof (atan_bound (z / w)) as [Hlo Hhi].
    assert (H90 : Rrad2deg (PI / 2) = 90) by (unfold Rrad2deg; field; lra).
    assert (H90' : Rrad2deg (- PI / 2) = -90)
      by (unfold Rrad2deg; field; lra).
    assert (H0 : Rrad2deg 0 = 0) by (unfold Rrad2deg; ring).
    assert (Hinv : 0 < / w) by (apply Rinv_0_lt_compat; exact Hw).
    repeat split.
    + rewrite <- H90'; apply Rrad2deg_lt; exact Hlo.
    + rewrite <- H90; apply Rrad2deg_lt; exact Hhi.
    + intros Hz. rewrite <- H0; apply Rrad2deg_lt.
      rewrite <- atan_0; apply atan_increasing.
      unfold Rdiv; nra.
    + intros Hz. rewrite <- H0; apply Rrad2deg_lt.
      rewrite <- atan_0; apply atan_increasing.
      unfold Rdiv; nra.
    + intros ->. unfold Rdiv; rewrite Rmult_0_l, atan_0. exact H0.
  - intros x z Hx.
    eexists; rewrite geodetic_Fin. f_equal. f_equal.
    unfold Ratan2, Rrad2deg.
    destruct (Rlt_dec 0 x); [lra |].
    destruct (Rlt_dec x 0); [| lra].
    destruct (Rle_dec 0 0); [| lra].
    unfold Rdiv at 1; rewrite Rmult_0_l, atan_0. field; lra.
Qed.

Lemma geodetic_coords_edges_witness :
  transform_earth_fixed_to_geodetic_coords (Fin 0, Fin 0, Fin 1) (Fin 0)
  = (Fin 0, Fin 90) /\
  transform_earth_fixed_to_geodetic_coords (Fin 0, Fin 0, Fin (- 1)) (Fin 0)
  = (Fin 0, Fin (-90)).
Proof.
  apply (proj1 (geodetic_coords_edges 0 ltac:(lra)) 1); lra.
Defined.

(** ** Looking straight down *)

(** From a satellite outside a spherical earth, a view vector that points
    at the centre of the earth (a positive multiple [s] of the opposite of
    the satellite position [p]) meets the surface at distance
    [(|p| - R) / (s |p|)], in the point [R p / |p|] below the satellite,
    whose longitude and latitude are those of the satellite position. *)
Theorem nadir_view_sub_satellite_point :
  forall px py pz radius s : R,
    0 < radius -> 0 < s ->
    radius ^ 2 < px ^ 2 + py ^ 2 + pz ^ 2 ->
    let n := sqrt (px ^ 2 + py ^ 2 + pz ^ 2) in
    let view_vector := (Fin (- s * px), Fin (- s * py), Fin (- s * pz)) in
    let sat_pos := (Fin px, Fin py, Fin pz) in
    let ellipsoid := (Fin radius, Fin 0) in
    _get_distance_to_intersection view_vector sat_pos ellipsoid
    = Fin ((n - radius) / (s * n)) /\
    intersect_with_earth view_vector sat_pos ellipsoid
    = (Fin (radius / n * px), Fin (radius / n * py), Fin (radius / n * pz)) /\
    transform_earth_fixed_to_geodetic_coords
      (intersect_with_earth view_vector sat_pos ellipsoid) (Fin 0)
    = transform_earth_fixed_to_geodetic_coords sat_pos (Fin 0).
Proof.
  intros px py pz radius s Hr Hs Hout n u p e.
  set (P := px ^ 2 + py ^ 2 + pz ^ 2) in *.
  assert (HP : 0 < P) by nra.
  assert (Hn : 0 < n) by (apply sqrt_lt_R0; exact HP).
  assert (Hnn : n * n = P) by (apply sqrt_sqrt; lra).
  assert (Hu : - s * px <> 0 \/ - s * py <> 0 \/ - s * pz <> 0).
  { destruct (Req_dec px 0) as [Hx | Hx]; [| left; nra].
    destruct (Req_dec py 0) as [Hy | Hy]; [| right; left; nra].
    destruct (Req_dec pz 0) as [Hz | Hz]; [| right; right; nra].
    exfalso; unfold P in HP; rewrite Hx, Hy, Hz in HP; lra. }
  assert (Hdisc : quad_disc (- s * px) (- s * py) (- s * pz) px py pz radius 0
                  = (s * n * radius) * (s * n * radius)).
  { transitivity (s * s * P * radius * radius).
    - unfold quad_disc, quad_a, quad_b, quad_c, quad_k, P; ring.
    - rewrite <- Hnn; ring. }
  assert (Hd : 0 <= quad_disc (- s * px) (- s * py) (- s * pz)
                      px py pz radius 0).
  { rewrite Hdisc. apply Rle_0_sqr. }
  assert (Ht : quad_root2 (- s * px) (- s * py) (- s * pz) px py pz radius 0
               = (n - radius) / (s * n)).
  { assert (Hsnr : 0 <= s * n * radius)
      by (apply Rlt_le; repeat apply Rmult_lt_0_compat; lra).
    unfold quad_root2. rewrite Hdisc, (sqrt_square _ Hsnr).
    replace (quad_b (- s * px) (- s * py) (- s * pz) px py pz 0)
      with (- s * (n * n))
      by (rewrite Hnn; unfold quad_b, quad_k, P; ring).
    replace (quad_a (- s * px) (- s * py) (- s * pz) 0)
      with (s * s * (n * n))
      by (rewrite Hnn; unfold quad_a, quad_k, P; ring).
    field; lra. }
  destruct (intersection_Fin (- s * px) (- s * py) (- s * pz) px py pz
              radius 0 ltac:(lra) Hu Hd) as [Hdist Hpoint].
  rewrite Ht in Hdist, Hpoint.
  assert (Hpoint' : intersect_with_earth u p e
                    = (Fin (radius / n * px), Fin (radius / n * py),
                       Fin (radius / n * pz))).
  { subst u p e; rewrite Hpoint; cbn.
    f_equal; [f_equal |]; f_equal; field; lra. }
  repeat split; [exact Hdist | exact Hpoint' |].
  rewrite Hpoint'. apply geodetic_scale.
  apply Rdiv_lt_0_compat; lra.
Qed.

Lemma nadir_view_sub_satellite_point_witness :
  transform_earth_fixed_to_geodetic_coords
    (intersect_with_earth
       (Fin (- 1 * 3), Fin (- 1 * 0), Fin (- 1 * 4))
       (Fin 3, Fin 0, Fin 4) (Fin 1, Fin 0)) (Fin 0)
  = transform_earth_fixed_to_geodetic_coords (Fin 3, Fin 0, Fin 4) (Fin 0).
Proof.
  apply (nadir_view_sub_satellite_point 3 0 4 1 1); lra.
Defined.

(** ** Not-a-number through the pipeline *)

Lemma fmul_NaN_r (a : float64) : (a * NaN)%fl = NaN.
Proof. destruct a; reflexivity. Qed.

Lemma fadd_NaN_r (a : float64) : (a + NaN)%fl = NaN.
Proof. destruct a; reflexivity. Qed.

Lemma fsub_NaN_r (a : float64) : (a - NaN)%fl = NaN.
Proof. destruct a; reflexivity. Qed.

Lemma dot_NaN_r (v : vec3) : dot v (NaN, NaN, NaN) = NaN.
Proof.
  destruct v as [[v0 v1] v2]; cbn [dot].
  rewrite !fmul_NaN_r. reflexivity.
Qed.

Lemma mat_dot_NaN_r (m : mat3) : mat_dot m (NaN, NaN, NaN) = (NaN, NaN, NaN).
Proof.
  destruct m as [[r0 r1] r2]; unfold mat_dot. rewrite !dot_NaN_r. reflexivity.
Qed.

Lemma cross_NaN_r (v : vec3) : cross v (NaN, NaN, NaN) = (NaN, NaN, NaN).
Proof.
  destruct v as [[v0 v1] v2]; cbn [cross]. rewrite !fmul_NaN_r. reflexivity.
Qed.

Lemma normalize_NaN : normalize_vector (NaN, NaN, NaN) = (NaN, NaN, NaN).
Proof. reflexivity. Qed.

(** A view vector without a value gives a pixel without a value. *)
Lemma intersect_NaN_view (sat_pos : vec3) (ellipsoid : float64 * float64) :
  intersect_with_earth (NaN, NaN, NaN) sat_pos ellipsoid = (NaN, NaN, NaN).
Proof.
  destruct sat_pos as [[x y] z], ellipsoid as [radius flattening].
  unfold intersect_with_earth, _get_distance_to_intersection,
    _get_distances_to_intersections.
  cbn [fpow2 fmul fadd].
  rewrite !fmul_NaN_r, !fadd_NaN_r. cbn.
  rewrite !fadd_NaN_r. reflexivity.
Qed.

Lemma intersect_NaN_position (view_vector : vec3)
    (ellipsoid : float64 * float64) :
  intersect_with_earth view_vector (NaN, NaN, NaN) ellipsoid
  = (NaN, NaN, NaN).
Proof.
  unfold intersect_with_earth.
  destruct (scale_vec _ view_vector) as [[a b] c]. reflexivity.
Qed.

Lemma view_vector_NaN_attitude (point : image_point) (orbit : Orbit)
    (proj_params : ProjectionParameters) :
  view_vector_of point (nan_attitude, orbit, proj_params) = (NaN, NaN, NaN).
Proof.
  unfold view_vector_of, transform_satellite_to_earth_fixed_coords,
    _get_satellite_unit_vectors.
  change (_get_spin_angles nan_attitude) with (NaN, NaN).
  change (angle_between_earth_and_sun nan_attitude) with NaN.
  assert (Hz : _get_satellite_unit_vector_z (NaN, NaN)
                 (greenwich_sidereal_time (angles orbit))
                 (nutation_precession orbit) = (NaN, NaN, NaN)).
  { unfold _get_satellite_unit_vector_z.
    change (_get_satellite_z_axis_1950 (NaN, NaN)) with (NaN, NaN, NaN).
    rewrite !mat_dot_NaN_r. reflexivity. }
  rewrite Hz.
  assert (Hx : _get_satellite_unit_vector_x NaN (angles orbit) (NaN, NaN, NaN)
               = (NaN, NaN, NaN)).
  { unfold _get_satellite_unit_vector_x.
    destruct (_get_vector_from_satellite_to_sun (angles orbit))
      as [[s0 s1] s2]. reflexivity. }
  rewrite Hx.
  change (_get_satellite_unit_vector_y (NaN, NaN, NaN) (NaN, NaN, NaN))
    with (NaN, NaN, NaN).
  destruct (transform_scanning_angles_to_satellite_coords _ _)
    as [[p0 p1] p2]. reflexivity.
Qed.

Lemma get_lon_lat_NaN_attitude (point : image_point) (orbit : Orbit)
    (proj_params : ProjectionParameters) :
  get_lon_lat point (nan_attitude, orbit, proj_params) = (NaN, NaN).
Proof.
  rewrite get_lon_lat_unfold, view_vector_NaN_attitude, intersect_NaN_view.
  apply geodetic_NaN.
Qed.

Lemma get_lon_lat_NaN_position (point : image_point) (attitude : Attitude)
    (orbit : Orbit) (proj_params : ProjectionParameters) :
  _get_sat_pos orbit = (NaN, NaN, NaN) ->
  get_lon_lat point (attitude, orbit, proj_params) = (NaN, NaN).
Proof.
  intros Hp.
  rewrite get_lon_lat_unfold, Hp, intersect_NaN_position.
  apply geodetic_NaN.
Qed.

(** When the cross product of the spin axis and the direction of the sun,
    as [_get_satellite_unit_vector_x] computes it, is the zero vector (the
    two are parallel), its normalisation is not-a-number: the satellite's
    x-axis and y-axis are undefined, and the transformation to earth-fixed
    coordinates returns not-a-number in every component, whatever the
    vector transformed and the angle between earth and sun. *)
Theorem satellite_unit_vectors_degenerate :
  forall (orbit : Orbit) (earth_sun_angle : float64)
         (spin_angles : float64 * float64) (point : vec3),
    cross
      (_get_satellite_unit_vector_z spin_angles
         (greenwich_sidereal_time (angles orbit))
         (nutation_precession orbit))
      (_get_vector_from_satellite_to_sun (angles orbit))
    = (Fin 0, Fin 0, Fin 0) ->
    transform_satellite_to_earth_fixed_coords
      point orbit earth_sun_angle spin_angles
    = (NaN, NaN, NaN).
Proof.
  intros orbit earth_sun_angle spin_angles point Hc.
  unfold transform_satellite_to_earth_fixed_coords,
    _get_satellite_unit_vectors.
  cbv zeta.
  remember (_get_satellite_unit_vector_z spin_angles
              (greenwich_sidereal_time (angles orbit))
              (nutation_precession orbit)) as z eqn:Hz.
  assert (Hx : _get_satellite_unit_vector_x earth_sun_angle (angles orbit) z
               = (NaN, NaN, NaN)).
  { unfold _get_satellite_unit_vector_x; cbv zeta. rewrite Hc.
    change (Fin 0, Fin 0, Fin 0) with (vFin (0, 0, 0)).
    rewrite normalize_zero.
    destruct z as [[z0 z1] z2]; reflexivity. }
  rewrite Hx.
  assert (Hy : _get_satellite_unit_vector_y (NaN, NaN, NaN) z
               = (NaN, NaN, NaN)).
  { unfold _get_satellite_unit_vector_y; cbv zeta.
    rewrite cross_NaN_r. reflexivity. }
  rewrite Hy.
  destruct z as [[z0 z1] z2], point as [[p0 p1] p2]; reflexivity.
Qed.

Lemma satellite_unit_vectors_degenerate_witness :
  transform_satellite_to_earth_fixed_coords
    (Fin 1, Fin 0, Fin 0) sunward_spin_orbit (Fin 0) (Fin 0, Fin 0)
  = (NaN, NaN, NaN).
Proof.
  apply satellite_unit_vectors_degenerate.
  unfold sunward_spin_orbit, orbit_of.
  cbn [angles greenwich_sidereal_time nutation_precession].
  rewrite unit_vector_z_vFin, sun_vector_vFin.
  rewrite cos_0, sin_0.
  assert (Hv : Rmat_vec ((1, 0, 0), (- 0, 1, 0), (0, 0, 1))
                 (Rmat_vec ((0, 0, 1), (0, 1, 0), (1, 0, 0))
                    (0, - (1) * 0, 1 * 1))
               = (1, 0, 0))
    by (unfold Rmat_vec, Rdot; f_equal; [f_equal |]; ring).
  rewrite Hv, normalize_of_unit by (unfold Rdot; ring).
  rewrite cross_vFin.
  unfold Rcross, vFin; f_equal; [f_equal |]; f_equal; ring.
Defined.

(** ** Interpolation of the predictions *)

Lemma interpolate_angles_total (x : float64)
    (x_sample y_sample : list float64) :
  exists v, interpolate_angles x x_sample y_sample = Ok v.
Proof.
  unfold interpolate_angles.
  destruct (interpolate_continuous_total x x_sample y_sample) as (v & ->).
  eexists; reflexivity.
Qed.

Lemma interpolate_nearest_nonempty (x : float64) (x_sample : list float64)
    (y_sample : list mat3) (first : mat3) :
  nth_error y_sample 0 = Some first ->
  exists m, interpolate_nearest x x_sample y_sample = Ok m.
Proof.
  intros Hfirst; unfold interpolate_nearest.
  destruct (_interpolate_nearest x x_sample y_sample) as [m | e].
  - exists m; reflexivity.
  - cbn [try_except]. rewrite (getitem_Some _ _ _ Hfirst).
    eexists; reflexivity.
Qed.

Lemma attitude_total (attitude_prediction : _AttitudePrediction)
    (t : float64) :
  exists attitude,
    interpolate_attitude_prediction attitude_prediction t = Ok attitude.
Proof.
  unfold interpolate_attitude_prediction.
  destruct (interpolate_angles_total t
              (attitude_prediction_times attitude_prediction)
              (predicted_angle_between_earth_and_sun attitude_prediction))
    as (a & ->).
  destruct (interpolate_angles_total t
              (attitude_prediction_times attitude_prediction)
              (predicted_angle_between_sat_spin_and_z_axis
                 attitude_prediction))
    as (b & ->).
  destruct (interpolate_angles_total t
              (attitude_prediction_times attitude_prediction)
              (predicted_angle_between_sat_spin_and_yz_plane
                 attitude_prediction))
    as (c & ->).
  eexists; reflexivity.
Qed.

Lemma orbit_angles_total (orbit_prediction : _OrbitPrediction) (t : float64) :
  exists orbit_angles,
    _interpolate_orbit_angles t orbit_prediction = Ok orbit_angles.
Proof.
  unfold _interpolate_orbit_angles.
  destruct (interpolate_angles_total t
              (orbit_prediction_times orbit_prediction)
              (predicted_greenwich_sidereal_time
                 (predicted_angles orbit_prediction))) as (a & ->).
  destruct (interpolate_angles_total t
              (orbit_prediction_times orbit_prediction)
              (predicted_declination_from_sat_to_sun
                 (predicted_angles orbit_prediction))) as (b & ->).
  destruct (interpolate_angles_total t
              (orbit_prediction_times orbit_prediction)
              (predicted_right_ascension_from_sat_to_sun
                 (predicted_angles orbit_prediction))) as (c & ->).
  eexists; reflexivity.
Qed.

Lemma sat_position_total (orbit_prediction : _OrbitPrediction) (t : float64) :
  exists position,
    _interpolate_sat_position t orbit_prediction = Ok position.
Proof.
  unfold _interpolate_sat_position.
  destruct (interpolate_continuous_total t
              (orbit_prediction_times orbit_prediction)
              (predicted_x (predicted_sat_position orbit_prediction)))
    as (a & ->).
  destruct (interpolate_continuous_total t
              (orbit_prediction_times orbit_prediction)
              (predicted_y (predicted_sat_position orbit_prediction)))
    as (b & ->).
  destruct (interpolate_continuous_total t
              (orbit_prediction_times orbit_prediction)
              (predicted_z (predicted_sat_position orbit_prediction)))
    as (c & ->).
  eexists; reflexivity.
Qed.

(** With a first nutation and precession matrix the interpolation of the
    orbit returns. *)
Lemma orbit_returns (orbit_prediction : _OrbitPrediction) (t : float64)
    (first : mat3) :
  nth_error (predicted_nutation_precession orbit_prediction) 0 = Some first ->
  exists orbit, interpolate_orbit_prediction orbit_prediction t = Ok orbit.
Proof.
  intros Hfirst. unfold interpolate_orbit_prediction.
  destruct (orbit_angles_total orbit_prediction t) as (a & ->).
  destruct (sat_position_total orbit_prediction t) as (p & ->).
  cbn [bind].
  destruct (interpolate_nearest_nonempty t
              (orbit_prediction_times orbit_prediction)
              (predicted_nutation_precession orbit_prediction) first Hfirst)
    as (m & ->).
  eexists; reflexivity.
Qed.

(** ** Pixels outside and inside the predictions *)

Lemma outside_not_enclosed (t : R) (times : list float64) :
  outside_prediction t times -> forall j, ~ encloses (Fin t) times j.
Proof.
  intros (tr & t0 & tl & -> & Hs & H0 & Hl & Hout).
  apply (out_of_range_not_enclosed t tr t0 tl); assumption.
Qed.

Lemma attitude_outside (attitude_prediction : _AttitudePrediction) (t : R) :
  outside_prediction t (attitude_prediction_times attitude_prediction) ->
  interpolate_attitude_prediction attitude_prediction (Fin t)
  = Ok nan_attitude.
Proof.
  intros Hout.
  destruct (not_enclosed_is_nan _ _ (outside_not_enclosed _ _ Hout))
    as (_ & Hang & _).
  unfold interpolate_attitude_prediction.
  rewrite !Hang. reflexivity.
Qed.

Lemma orbit_outside (orbit_prediction : _OrbitPrediction) (t : R)
    (first : mat3) :
  outside_prediction t (orbit_prediction_times orbit_prediction) ->
  nth_error (predicted_nutation_precession orbit_prediction) 0 = Some first ->
  interpolate_orbit_prediction orbit_prediction (Fin t)
  = Ok (nan_orbit first).
Proof.
  intros Hout Hfirst.
  destruct (not_enclosed_is_nan _ _ (outside_not_enclosed _ _ Hout))
    as (Hcont & Hang & Hnear).
  unfold interpolate_orbit_prediction, _interpolate_orbit_angles,
    _interpolate_sat_position.
  rewrite !Hang, !Hcont, (Hnear _ _ Hfirst). reflexivity.
Qed.

(** A pixel whose observation time lies outside the times of the attitude
    prediction or of the orbit prediction gets the attitude, or the orbit,
    without a value, and not-a-number as longitude and latitude; it does
    not raise. *)
Theorem pixel_outside_prediction_is_nan :
  forall (point : image_point) (scan_params : ScanningParameters)
         (proj_params : ProjectionParameters)
         (attitude_prediction : _AttitudePrediction)
         (orbit_prediction : _OrbitPrediction) (t : R) (first : mat3),
    get_observation_time point scan_params = Fin t ->
    nth_error (predicted_nutation_precession orbit_prediction) 0
    = Some first ->
    (outside_prediction t (attitude_prediction_times attitude_prediction) ->
     interpolate_attitude_prediction attitude_prediction (Fin t)
     = Ok nan_attitude) /\
    (outside_prediction t (orbit_prediction_times orbit_prediction) ->
     interpolate_orbit_prediction orbit_prediction (Fin t)
     = Ok (nan_orbit first)) /\
    (outside_prediction t (attitude_prediction_times attitude_prediction) \/
     outside_prediction t (orbit_prediction_times orbit_prediction) ->
     _get_lons_lats_numba_cell point (scan_params, proj_params)
       (attitude_prediction, orbit_prediction) = Ok (NaN, NaN)).
Proof.
  intros point scan_params proj_params attitude_prediction orbit_prediction
    t first Ht Hfirst.
  split; [apply attitude_outside |].
  split; [intros Hout; apply orbit_outside; assumption |].
  intros Hout.
  unfold _get_lons_lats_numba_cell, _get_navigation_parameters,
    interpolate_navigation_prediction.
  rewrite Ht.
  destruct Hout as [Hatt | Horb].
  - rewrite (attitude_outside _ _ Hatt). cbn [bind].
    destruct (orbit_returns orbit_prediction (Fin t) first Hfirst)
      as (o & ->).
    cbn [bind]. rewrite get_lon_lat_NaN_attitude. reflexivity.
  - destruct (attitude_total attitude_prediction (Fin t)) as (a & ->).
    cbn [bind]. rewrite (orbit_outside _ _ _ Horb Hfirst). cbn [bind].
    rewrite get_lon_lat_NaN_position; reflexivity.
Qed.

Lemma sample_observation_time (start : R) :
  get_observation_time (0%Z, 0%Z) (sample_scan_params start) = Fin start.
Proof.
  unfold sample_scan_params.
  rewrite observation_time_Fin by (lra || lia).
  f_equal. rewrite Zdiv_0_l. simpl. field.
  pose proof PI_RGT_0; lra.
Qed.

Lemma sample_outside : outside_prediction 5 [Fin 0; Fin 1].
Proof.
  exists [0; 1], 0, 1; repeat split.
  - unfold strictly_increasing; repeat (constructor; try lra).
  - right; lra.
Qed.

Lemma pixel_outside_prediction_is_nan_witness :
  _get_lons_lats_numba_cell (0%Z, 0%Z)
    (sample_scan_params 5, unit_projection)
    (sample_attitude_prediction, sample_orbit_prediction)
  = Ok (NaN, NaN).
Proof.
  apply (pixel_outside_prediction_is_nan (0%Z, 0%Z) (sample_scan_params 5)
           unit_projection sample_attitude_prediction
           sample_orbit_prediction 5 identity_matrix).
  - apply sample_observation_time.
  - reflexivity.
  - right; exact sample_outside.
Defined.

Lemma continuous_inside (t : R) (times series : list float64) :
  inside_prediction t times ->
  finite_series (List.length times) series ->
  exists r : R, interpolate_continuous (Fin t) times series = Ok (Fin r).
Proof.
  intros (tr & t0 & tl & -> & Hs & H0 & Hl & Hin) (yr & -> & Hlen).
  rewrite length_map in Hlen.
  destruct (interpolate_continuous_enclosed t tr yr Hlen)
    as (i & x_lo & x_hi & y_lo & y_hi & _ & _ & _ & _ & _ & _ & Hcont).
  { apply (in_range_enclosed t tr (List.length tr - 1) 0 t0 tl);
      [exact H0 | exact Hl | exact Hin]. }
  eexists; exact Hcont.
Qed.

Lemma angles_inside (t : R) (times series : list float64) :
  inside_prediction t times ->
  finite_series (List.length times) series ->
  exists a : float64,
    interpolate_angles (Fin t) times series = Ok a /\ wrapped a.
Proof.
  intros Hin Hfin.
  destruct (continuous_inside t times series Hin Hfin) as (r & Hr).
  unfold interpolate_angles; rewrite Hr; cbn [bind].
  eexists; split; [reflexivity |].
  rewrite wrap_2pi_Fin. eexists; split; [reflexivity |].
  pose proof (wrap_range r); lra.
Qed.

Lemma finite_inside (t : R) (times series : list float64) :
  inside_prediction t times ->
  finite_series (List.length times) series ->
  exists a : float64,
    interpolate_continuous (Fin t) times series = Ok a /\ finite a.
Proof.
  intros Hin Hfin.
  destruct (continuous_inside t times series Hin Hfin) as (r & Hr).
  exists (Fin r); split; [exact Hr | exists r; reflexivity].
Qed.

Lemma nearest_inside (t : R) (times : list float64) (series : list mat3) :
  inside_prediction t times ->
  List.length series = List.length times ->
  exists m : mat3,
    interpolate_nearest (Fin t) times series = Ok m /\ In m series.
Proof.
  intros (tr & t0 & tl & -> & Hs & H0 & Hl & Hin) Hlen.
  destruct (in_range_enclosed t tr (List.length tr - 1) 0 t0 tl H0 Hl Hin)
    as (k & Hk).
  destruct (find_cases (Fin t) (map Fin tr))
    as [(i & Hfind & Henc & _) | (_ & Hno)]; [| destruct (Hno k Hk)].
  pose proof (encloses_lt _ _ _ Henc) as Hi.
  destruct (nth_error series i) as [m |] eqn:Hm;
    [| apply nth_error_None in Hm; lia].
  exists m; split; [| eapply nth_error_In; exact Hm].
  unfold interpolate_nearest, _interpolate_nearest; rewrite Hfind.
  cbn [bind]. rewrite (getitem_Some _ _ _ Hm). reflexivity.
Qed.

(** For a pixel whose observation time lies inside the times of both
    predictions, and predictions whose series are finite and as long as
    their times, the navigation parameters are complete: the three angles
    of the attitude and the three of the orbit are finite and wrapped into
    [-pi, pi], the satellite position is finite, and the nutation and
    precession matrix is one of the predicted matrices. *)
Theorem navigation_parameters_inside :
  forall (point : image_point) (scan_params : ScanningParameters)
         (proj_params : ProjectionParameters)
         (attitude_prediction : _AttitudePrediction)
         (orbit_prediction : _OrbitPrediction) (t : R),
    get_observation_time point scan_params = Fin t ->
    inside_prediction t (attitude_prediction_times attitude_prediction) ->
    inside_prediction t (orbit_prediction_times orbit_prediction) ->
    well_formed_attitude_prediction attitude_prediction ->
    well_formed_orbit_prediction orbit_prediction ->
    exists (attitude : Attitude) (orbit : Orbit),
      _get_navigation_parameters point (scan_params, proj_params)
        (attitude_prediction, orbit_prediction)
      = Ok (attitude, orbit, proj_params) /\
      wrapped (angle_between_earth_and_sun attitude) /\
      wrapped (angle_between_sat_spin_and_z_axis attitude) /\
      wrapped (angle_between_sat_spin_and_yz_plane attitude) /\
      wrapped (greenwich_sidereal_time (angles orbit)) /\
      wrapped (declination_from_sat_to_sun (angles orbit)) /\
      wrapped (right_ascension_from_sat_to_sun (angles orbit)) /\
      finite (pos_x (sat_position orbit)) /\
      finite (pos_y (sat_position orbit)) /\
      finite (pos_z (sat_position orbit)) /\
      In (nutation_precession orbit)
         (predicted_nutation_precession orbit_prediction).
Proof.
  intros point scan_params proj_params attitude_prediction orbit_prediction
    t Ht Hatt Horb (Ha1 & Ha2 & Ha3) (Ho1 & Ho2 & Ho3 & Hx & Hy & Hz & Hn).
  destruct (angles_inside t _ _ Hatt Ha1) as (a1 & Ea1 & Wa1).
  destruct (angles_inside t _ _ Hatt Ha2) as (a2 & Ea2 & Wa2).
  destruct (angles_inside t _ _ Hatt Ha3) as (a3 & Ea3 & Wa3).
  destruct (angles_inside t _ _ Horb Ho1) as (o1 & Eo1 & Wo1).
  destruct (angles_inside t _ _ Horb Ho2) as (o2 & Eo2 & Wo2).
  destruct (angles_inside t _ _ Horb Ho3) as (o3 & Eo3 & Wo3).
  destruct (finite_inside t _ _ Horb Hx) as (x & Ex & Fx).
  destruct (finite_inside t _ _ Horb Hy) as (y & Ey & Fy).
  destruct (finite_inside t _ _ Horb Hz) as (z & Ez & Fz).
  destruct (nearest_inside t _ _ Horb Hn) as (m & Em & Im).
  eexists; eexists; split.
  - unfold _get_navigation_parameters, interpolate_navigation_prediction,
      interpolate_attitude_prediction, interpolate_orbit_prediction,
      _interpolate_orbit_angles, _interpolate_sat_position.
    rewrite Ht, Ea1, Ea2, Ea3, Eo1, Eo2, Eo3, Ex, Ey, Ez, Em.
    reflexivity.
  - cbn [angle_between_earth_and_sun angle_between_sat_spin_and_z_axis
         angle_between_sat_spin_and_yz_plane angles sat_position
         nutation_precession greenwich_sidereal_time
         declination_from_sat_to_sun right_ascension_from_sat_to_sun
         pos_x pos_y pos_z].
    repeat split; assumption.
Qed.

Lemma sample_inside : inside_prediction (1 / 2) [Fin 0; Fin 1].
Proof.
  exists [0; 1], 0, 1; repeat split; try lra.
  unfold strictly_increasing; repeat (constructor; try lra).
Qed.

Lemma sample_finite_series (a b : R) : finite_series 2 [Fin a; Fin b].
Proof. exists [a; b]; split; reflexivity. Qed.

Lemma navigation_parameters_inside_witness :
  exists (attitude : Attitude) (orbit : Orbit),
    _get_navigation_parameters (0%Z, 0%Z)
      (sample_scan_params (1 / 2), unit_projection)
      (sample_attitude_prediction, sample_orbit_prediction)
    = Ok (attitude, orbit, unit_projection) /\
    wrapped (angle_between_earth_and_sun attitude) /\
    wrapped (angle_between_sat_spin_and_z_axis attitude) /\
    wrapped (angle_between_sat_spin_and_yz_plane attitude) /\
    wrapped (greenwich_sidereal_time (angles orbit)) /\
    wrapped (declination_from_sat_to_sun (angles orbit)) /\
    wrapped (right_ascension_from_sat_to_sun (angles orbit)) /\
    finite (pos_x (sat_position orbit)) /\
    finite (pos_y (sat_position orbit)) /\
    finite (pos_z (sat_position orbit)) /\
    In (nutation_precession orbit)
       (predicted_nutation_precession sample_orbit_prediction).
Proof.
  apply (navigation_parameters_inside (0%Z, 0%Z)
           (sample_scan_params (1 / 2)) unit_projection
           sample_attitude_prediction sample_orbit_prediction (1 / 2)).
  - apply sample_observation_time.
  - exact sample_inside.
  - exact sample_inside.
  - repeat split; apply sample_finite_series.
  - repeat split; try apply sample_finite_series.
Defined.
